(** * Zevent Place level fetcher: a model of [git_zevent_place_fun_async.py]

    The module fetches, pixel by pixel, the "level" of the cells of the
    700x700 Zevent Place canvas and plots them.  This development embeds
    its functions in Rocq, one definition per source function, and proves
    the properties of the fetcher, of the batch coordinator, of the sector
    driver and of the renderer.

    Conventions of the embedding:
    - Python integers are [Z]; a sector is the 4-tuple [(x1, y1, x2, y2)];
    - a numpy array of dtype [np.int_] is a record with its shape and its
      rows, and a cell only takes values of the signed 64-bit range;
    - effects (printing, network posts, showing a figure) are recorded in
      an explicit [World] that every function threads through;
    - a Python exception is a [Raise] outcome that propagates through
      [bind] until a [try_except] handles it;
    - [while True] is unrolled with a fuel counter; running out of fuel is
      the [Pending] outcome (the call is still waiting). *)

From Stdlib Require Import ZArith List Lia.
From stdpp Require Import base decidable option list numbers strings gmap.

Local Open Scope Z_scope.

(** ** Exceptions and outcomes *)

Inductive exn : Type :=
  | NameError (name : string)
  | ValueError
  | IndexError
  | OverflowError
  | ZeroDivisionError
  | ClientError (text : string).

Inductive outcome (A : Type) : Type :=
  | Ret (a : A)
  | Raise (e : exn)
  | Pending.

Arguments Ret {A} a.
Arguments Raise {A} e.
Arguments Pending {A}.

(** ** numpy arrays of dtype [np.int_] *)

Record ndarray : Type := mk_ndarray {
  nrows : nat;
  ncols : nat;
  rows : list (list Z)
}.

Definition shape (a : ndarray) : nat * nat := (nrows a, ncols a).

(** The buffer agrees with the recorded shape. *)
Definition well_shaped (a : ndarray) : Prop :=
  length (rows a) = nrows a /\ Forall (fun r => length r = ncols a) (rows a).

(** The array of shape [(h, w)] that holds 0 everywhere. *)
Definition zeros (h w : nat) : ndarray :=
  {| nrows := h; ncols := w; rows := replicate h (replicate w 0) |}.

(** [np.zeros((h, w), dtype=np.int_)]; a negative dimension is a
    [ValueError]. *)
Definition np_zeros (h w : Z) : outcome ndarray :=
  if (h <? 0) || (w <? 0) then Raise ValueError
  else Ret (zeros (Z.to_nat h) (Z.to_nat w)).

(** The index pairs of an [n] by [m] array, in row-major order. *)
Definition index_pairs (n m : Z) : list (Z * Z) :=
  flat_map (fun x => map (fun y => (x, y)) (seqZ 0 m)) (seqZ 0 n).

(** [np.ndindex(n, m)]: an iterator over [index_pairs n m]; a negative
    dimension is a [ValueError]. *)
Definition np_ndindex (n m : Z) : outcome (list (Z * Z)) :=
  if (n <? 0) || (m <? 0) then Raise ValueError
  else Ret (index_pairs n m).

(** [p in it] for an iterator without [__contains__]: iterate and compare. *)
Definition py_in (p : Z * Z) (it : list (Z * Z)) : bool :=
  existsb (fun q => (fst p =? fst q) && (snd p =? snd q)) it.

(** An integer index into an axis of length [n]: Python counts a negative
    index from the end; anything else out of range has no position. *)
Definition norm_index (n : nat) (i : Z) : option nat :=
  if (0 <=? i) && (i <? Z.of_nat n) then Some (Z.to_nat i)
  else if (- Z.of_nat n <=? i) && (i <? 0) then Some (Z.to_nat (i + Z.of_nat n))
  else None.

(** The values a cell of dtype [np.int_] (a C long) holds. *)
Definition int_min : Z := - 2 ^ 63.
Definition int_max : Z := 2 ^ 63 - 1.
Definition fits_int (v : Z) : bool := (int_min <=? v) && (v <=? int_max).

(** [data[i, j] = v]: [IndexError] for an index out of bounds, then
    [OverflowError] for a Python integer that does not fit the cell. *)
Definition write (data : ndarray) (r c : nat) (v : Z) : ndarray :=
  {| nrows := nrows data; ncols := ncols data;
     rows := alter (fun row => <[c := v]> row) r (rows data) |}.

Definition setitem (data : ndarray) (i j v : Z) : outcome ndarray :=
  match norm_index (nrows data) i, norm_index (ncols data) j with
  | Some r, Some c =>
      if fits_int v then Ret (write data r c v) else Raise OverflowError
  | _, _ => Raise IndexError
  end.

(** [data[i, j]] for in-range natural indices. *)
Definition getitem (data : ndarray) (r c : nat) : option Z :=
  rows data !! r ≫= fun row => row !! c.

(** A bound of a slice [a:b] over an axis of length [n], clipped the way
    Python clips it. *)
Definition slice_bound (n : nat) (i : Z) : nat :=
  if i <? 0 then Z.to_nat (Z.max (i + Z.of_nat n) 0)
  else Z.to_nat (Z.min i (Z.of_nat n)).

(** A value of shape [(p, q)] broadcasts to a target of shape [(h, c)]
    when each of its dimensions equals the target's or is 1. *)
Definition broadcasts (p q h c : nat) : bool :=
  ((p =? h)%nat || (p =? 1)%nat) && ((q =? c)%nat || (q =? 1)%nat).

Definition broadcast_get (value : ndarray) (i j : nat) : Z :=
  let i' := if (nrows value =? 1)%nat then O else i in
  let j' := if (ncols value =? 1)%nat then O else j in
  default 0 (getitem value i' j').

(** [data[:, a:b] = value]. *)
Definition setcols (data : ndarray) (a b : Z) (value : ndarray) : outcome ndarray :=
  let lo := slice_bound (ncols data) a in
  let hi := slice_bound (ncols data) b in
  let c := (hi - lo)%nat in
  if broadcasts (nrows value) (ncols value) (nrows data) c
  then Ret {| nrows := nrows data; ncols := ncols data;
              rows := imap (fun i row =>
                        take lo row
                        ++ map (fun j => broadcast_get value i j) (seq 0 c)
                        ++ drop (lo + c) row) (rows data) |}
  else Raise ValueError.

(** [np.amax(data)]: a [ValueError] on an array without elements. *)
Definition np_amax (data : ndarray) : outcome Z :=
  match concat (rows data) with
  | [] => Raise ValueError
  | v :: vs => Ret (foldl Z.max v vs)
  end.

(** ** Python integer arithmetic *)

(** [a // b] on integers: floor division, [ZeroDivisionError] on 0. *)
Definition py_floordiv (a b : Z) : outcome Z :=
  if b =? 0 then Raise ZeroDivisionError else Ret (a / b).

(** [np.int_(np.ceil(a / b))] on integers.  [a / b] is a float; when
    [|a| <= 700] and [1 <= b <= 10000], the only operands the driver
    passes, a quotient that is not an integer is at least [1 / 10000]
    away from the nearest one while the rounding error stays below
    [1e-13], so the float ceiling is the exact one. *)
Definition ceil_truediv (a b : Z) : outcome Z :=
  if b =? 0 then Raise ZeroDivisionError else Ret (- ((- a) / b)).

(** ** The wire protocol *)

Record PixelUpgradeInput : Type := { x : Z; y : Z }.
Record Variables : Type := { pixel : PixelUpgradeInput }.
Record Payload : Type := {
  operationName : string;
  variables : Variables;
  query : string
}.

Global Instance PixelUpgradeInput_eq_dec : EqDecision PixelUpgradeInput.
Proof. solve_decision. Defined.
Global Instance Variables_eq_dec : EqDecision Variables.
Proof. solve_decision. Defined.
Global Instance Payload_eq_dec : EqDecision Payload.
Proof. solve_decision. Defined.

(** What one post gets back once the body went through
    [response.json()], the three subscripts and [int(...)]: a level, or
    the exception any of these steps raised. *)
Inductive response : Type :=
  | Level (level : Z)
  | Failure (e : exn).

(** ** The world *)

Definition Sector : Type := Z * Z * Z * Z.

Inductive message : Type :=
  | MsgAddAuthorization
  | MsgFailedTimes (px py : Z) (e : exn)
  | MsgProblemOnPixel (px py level : Z)
  | MsgInvalidSector (sector : Sector)
  | MsgSending (requests batches : Z).

(** What [plt.show()] displays: the image, the [extent] list, the title's
    sector and maximum, and the colour bar. *)
Record Figure : Type := {
  image : ndarray;
  extent : list Z;
  log_norm : bool;
  colorbar : bool;
  title_sector : Sector;
  title_max : Z
}.

Record World : Type := {
  stdout : list message;
  posts : list Payload;
  shown : list Figure
}.

Definition initial_world : World := {| stdout := []; posts := []; shown := [] |}.

(** What surrounds a run: the [headers] dict, the remote service (its
    answer to the [i]-th post of a payload) and the event loop's choice
    of which pending request completes next, given the posts so far. *)
Record Env : Type := {
  env_headers : gmap string string;
  service : Payload -> nat -> response;
  completes : list Payload -> nat
}.

(** ** The monad of effects *)

Definition M (A : Type) : Type := World -> outcome A * World.

Definition ret {A} (a : A) : M A := fun w => (Ret a, w).

Definition bind {A B} (m : M A) (k : A -> M B) : M B :=
  fun w =>
    match m w with
    | (Ret a, w') => k a w'
    | (Raise e, w') => (Raise e, w')
    | (Pending, w') => (Pending, w')
    end.

Declare Scope py_scope.
Delimit Scope py_scope with py.
Notation "v <- m ;; k" := (bind m (fun v => k))
  (at level 100, m at next level, right associativity) : py_scope.
Notation "m ;;; k" := (bind m (fun _ => k))
  (at level 100, right associativity) : py_scope.
Local Open Scope py_scope.

Definition lift {A} (r : outcome A) : M A := fun w => (r, w).

Definition raise {A} (e : exn) : M A := lift (Raise e).

Definition pending {A} : M A := lift Pending.

(** [try: m  except Exception as e: handler e]. *)
Definition try_except {A} (m : M A) (handler : exn -> M A) : M A :=
  fun w =>
    match m w with
    | (Raise e, w') => handler e w'
    | r => r
    end.

Definition print (msg : message) : M unit :=
  fun w => (Ret tt, {| stdout := stdout w ++ [msg]; posts := posts w; shown := shown w |}).

Definition plt_show (fig : Figure) : M unit :=
  fun w => (Ret tt, {| stdout := stdout w; posts := posts w; shown := shown w ++ [fig] |}).

(** How often a payload was posted already. *)
Definition times_posted (p : Payload) (w : World) : nat :=
  length (filter (fun q => q = p) (posts w)).

(** [session.post(file, json=payload)] followed by the decoding of the
    body: one network call. *)
Definition session_post (env : Env) (payload : Payload) : M response :=
  fun w =>
    (Ret (service env payload (times_posted payload w)),
     {| stdout := stdout w; posts := posts w ++ [payload]; shown := shown w |}).

(** [for v in l: s = body v s]. *)
Fixpoint for_each {A S} (l : list A) (body : A -> S -> M S) (s : S) : M S :=
  match l with
  | [] => ret s
  | v :: l' => s' <- body v s ;; for_each l' body s'
  end.

(** ** Names *)

(** The names the module binds at top level, in order: its imports, its
    settings and its functions.  Neither this list nor the builtins hold
    [time] or [n]. *)
Definition module_names : list string :=
  ["requests"; "brotli"; "json"; "np"; "plt"; "LogNorm"; "asyncio"; "aiohttp";
   "tqdm"; "base_url"; "file"; "headers"; "check_auth"; "fetch_pixel_level";
   "get_level_data_concurrent"; "is_valid"; "get_level_data";
   "plot_level_map_from_data"; "plot_level_map"; "sector"]%string.

(** Reading a global name: [NameError] when nothing binds it. *)
Definition load_name (names : list string) (name : string) : M unit :=
  if bool_decide (name ∈ names) then ret tt else raise (NameError name).

(** ** The module's settings *)

Definition headers : gmap string string :=
  <["Host" := "place-api.zevent.fr"]>
  (<["Accept-Encoding" := "gzip, deflate, br"]>
  (<["content-type" := "application/json"]>
  (<["authorization" := ""]> ∅)))%string.

(** ** check_auth *)

Definition check_auth (hdrs : gmap string string) : M bool :=
  match hdrs !! "authorization"%string with
  | None => print MsgAddAuthorization ;;; ret false
  | Some key =>
      if bool_decide (key = ""%string)
      then print MsgAddAuthorization ;;; ret false
      else ret true
  end.

(** ** fetch_pixel_level *)

Definition get_pixel_level_query : string :=
  "query getPixelLevel($pixel: PixelUpgradeInput!) {getPixelLevel(pixel: $pixel) {x y level coloredBy upgradedBy __typename}}".

Definition make_payload (px py : Z) : Payload :=
  {| operationName := "getPixelLevel";
     variables := {| pixel := {| x := py; y := px |} |};
     query := get_pixel_level_query |}.

(** The [while True] loop, for the names [names] bound in the module. *)
Fixpoint fetch_loop (names : list string) (env : Env) (fuel : nat)
    (px py : Z) (payload : Payload) : M (Z * Z * Z) :=
  match fuel with
  | O => pending
  | S fuel' =>
      let tries := 0 in
      r <- session_post env payload ;;
      match r with
      | Level level => ret (px, py, level)
      | Failure e =>
          let tries := tries + 1 in
          (if tries mod 10 =? 0
           then load_name names "n" ;;; print (MsgFailedTimes px py e)
           else ret tt) ;;;
          load_name names "time" ;;;
          fetch_loop names env fuel' px py payload
      end
  end.

Definition fetch_pixel_level_in (names : list string) (env : Env) (fuel : nat)
    (pixel : Z * Z) : M (Z * Z * Z) :=
  let '(px, py) := pixel in
  let payload := make_payload px py in
  fetch_loop names env fuel px py payload.

Definition fetch_pixel_level : Env -> nat -> Z * Z -> M (Z * Z * Z) :=
  fetch_pixel_level_in module_names.

(** ** asyncio.gather *)

(** The event loop: while requests are pending, the one that completes
    next is chosen by [completes]; its result goes to the slot of its
    position in the argument list.  An exception of a task is the
    exception of the whole [gather].  A request enters [posts] when it
    completes, so [posts] lists the requests in the order of completion;
    the requests still in flight when a task raises are not listed. *)
Fixpoint complete {A} (env : Env) (n : nat) (waiting : list (nat * M A))
    (slots : list (option A)) : M (list (option A)) :=
  match n with
  | O => ret slots
  | S n' => fun w =>
      let i := Nat.modulo (completes env (posts w)) (length waiting) in
      match waiting !! i with
      | None => ret slots w
      | Some (k, task) =>
          (r <- task ;;
           complete env n' (delete i waiting) (<[k := Some r]> slots)) w
      end
  end.

(** [await asyncio.gather] over the tasks: the results in the order of the
    arguments, whatever the order of completion. *)
Definition gather {A} (env : Env) (tasks : list (M A)) : M (list A) :=
  slots <- complete env (length tasks) (imap pair tasks)
             (replicate (length tasks) None) ;;
  match mapM id slots with
  | Some results => ret results
  | None => pending
  end.

(** ** get_level_data_concurrent *)

(** The loop that fills in the data matrix. *)
Definition scatter (x1 y1 : Z) (pixels_level_list : list (Z * Z * Z))
    (data : ndarray) : M ndarray :=
  for_each pixels_level_list
    (fun '(px, py, level) data =>
       try_except
         (lift (setitem data (px - x1) (py - y1) level))
         (fun e => print (MsgProblemOnPixel px py level) ;;; ret data))
    data.

Definition sector_pixels (x1 y1 : Z) (idx : list (Z * Z)) : list (Z * Z) :=
  map (fun '(ix, iy) => (x1 + ix, y1 + iy)) idx.

Definition get_level_data_concurrent (env : Env) (fuel : nat) (sector : Sector)
    : M ndarray :=
  let '(x1, y1, x2, y2) := sector in
  let h := x2 - x1 in
  let w := y2 - y1 in
  data <- lift (np_zeros h w) ;;
  idx <- lift (np_ndindex h w) ;;
  let pixels := sector_pixels x1 y1 idx in
  pixels_level_list <-
    gather env (map (fun pixel => fetch_pixel_level env fuel pixel) pixels) ;;
  scatter x1 y1 pixels_level_list data.

(** ** is_valid *)

Definition max_x : Z := 700.
Definition max_y : Z := 700.

Definition is_valid (sector : Sector) : M bool :=
  let '(x1, y1, x2, y2) := sector in
  inside <- lift (np_ndindex x2 y2) ;;
  canvas <- (if py_in (x1, y1) inside
             then lift (np_ndindex (max_x + 1) (max_y + 1))
             else ret []) ;;
  if py_in (x1, y1) inside && py_in (x2, y2) canvas
  then ret true
  else print (MsgInvalidSector sector) ;;; ret false.

(** ** get_level_data *)

Definition max_conc_req : Z := 10000.

(** The sector of batch [b]. *)
Definition sector_batch (sector : Sector) (num_col_batch b : Z) : Sector :=
  let '(x1, y1, x2, y2) := sector in
  let y1b := y1 + b * num_col_batch in
  let y2b := Z.min y2 (y1b + num_col_batch) in
  (x1, y1b, x2, y2b).

(** The body of the loop over batches. *)
Definition run_batch (env : Env) (fuel : nat) (sector : Sector)
    (num_col_batch b : Z) (data : ndarray) : M ndarray :=
  let '(x1, y1, x2, y2) := sector in
  let '(_, y1b, _, y2b) := sector_batch sector num_col_batch b in
  data_batch <- get_level_data_concurrent env fuel (x1, y1b, x2, y2b) ;;
  lift (setcols data (y1b - y1) (y2b - y1) data_batch).

Definition get_level_data (env : Env) (fuel : nat) (sector : Sector) : M ndarray :=
  valid <- is_valid sector ;;
  if negb valid then lift (np_zeros 1 1)
  else
    let '(x1, y1, x2, y2) := sector in
    let h := x2 - x1 in
    let w := y2 - y1 in
    num_col_batch <- lift (py_floordiv max_conc_req h) ;;
    num_batches <- lift (ceil_truediv w num_col_batch) ;;
    data <- lift (np_zeros h w) ;;
    authorized <- check_auth (env_headers env) ;;
    if authorized
    then
      print (MsgSending (h * w) num_batches) ;;;
      for_each (seqZ 0 num_batches) (run_batch env fuel sector num_col_batch) data
    else ret data.

(** ** plot_level_map_from_data and plot_level_map *)

Definition plot_level_map_from_data (data : ndarray) (sector : Sector) : M unit :=
  let '(x1, y1, x2, y2) := sector in
  max_level <- lift (np_amax data) ;;
  if 0 <? max_level
  then plt_show {| image := data; extent := [y1; y2; x2; x1];
                   log_norm := true; colorbar := true;
                   title_sector := sector; title_max := max_level |}
  else ret tt.

Definition plot_level_map (env : Env) (fuel : nat) (sector : Sector) : M unit :=
  data <- get_level_data env fuel sector ;;
  plot_level_map_from_data data sector.

(** ** Vocabulary of the statements *)

(** The world after the posts [ps], and after the messages [msgs]. *)
Definition posted (w : World) (ps : list Payload) : World :=
  {| stdout := stdout w; posts := posts w ++ ps; shown := shown w |}.

Definition printed (w : World) (msgs : list message) : World :=
  {| stdout := stdout w ++ msgs; posts := posts w; shown := shown w |}.

(** The service answers the next post for pixel [(px, py)] with a level. *)
Definition answer (env : Env) (w : World) (px py : Z) : response :=
  service env (make_payload px py) (times_posted (make_payload px py) w).

(** The cell of an [h] by [w] array that the assignment
    [data[px - x1, py - y1] = level] writes, if it writes one. *)
Definition target (h w : nat) (x1 y1 : Z) (res : Z * Z * Z) : option (nat * nat) :=
  let '(px, py, level) := res in
  match norm_index h (px - x1), norm_index w (py - y1) with
  | Some r, Some c => if fits_int level then Some (r, c) else None
  | _, _ => None
  end.

(** The level that the results leave in cell [(r, c)], if one of them
    writes it: the last one wins. *)
Fixpoint written (h w : nat) (x1 y1 : Z) (results : list (Z * Z * Z))
    (r c : nat) : option Z :=
  match results with
  | [] => None
  | res :: rest =>
      match written h w x1 y1 rest r c with
      | Some v => Some v
      | None =>
          if bool_decide (target h w x1 y1 res = Some (r, c))
          then Some (snd res) else None
      end
  end.

(** The reports of the results that write no cell. *)
Fixpoint problems (h w : nat) (x1 y1 : Z) (results : list (Z * Z * Z))
    : list message :=
  match results with
  | [] => []
  | res :: rest =>
      match target h w x1 y1 res with
      | Some _ => problems h w x1 y1 rest
      | None =>
          MsgProblemOnPixel (fst (fst res)) (snd (fst res)) (snd res)
            :: problems h w x1 y1 rest
      end
  end.

(** The payload posted for a pixel, and the result of fetching a pixel
    whose level is [lvl]. *)
Definition payload_of (p : Z * Z) : Payload := make_payload (fst p) (snd p).

Definition fetched (lvl : Z -> Z -> Z) (p : Z * Z) : Z * Z * Z :=
  (fst p, snd p, lvl (fst p) (snd p)).

(** The pixels of a sector, in the order of the fetches, and their
    results. *)
Definition pixels_of (sector : Sector) : list (Z * Z) :=
  let '(x1, y1, x2, y2) := sector in
  sector_pixels x1 y1 (index_pairs (x2 - x1) (y2 - y1)).

Definition results_of (lvl : Z -> Z -> Z) (sector : Sector) : list (Z * Z * Z) :=
  map (fetched lvl) (pixels_of sector).

(** The level the service reports at the next post for [(px, py)]. *)
Definition reported (env : Env) (w : World) (px py : Z) : Z :=
  match answer env w px py with
  | Level level => level
  | Failure _ => 0
  end.

(** A service whose level for the pixel [(px, py)] is [10 * px + py]; the
    payload carries [py] as [x] and [px] as [y].  The key is configured
    and the event loop completes the requests out of order. *)
Definition tens : Env :=
  {| env_headers := <["authorization" := "Bearer key"]> headers;
     service := fun p _ => Level (10 * y (pixel (variables p))
                                  + x (pixel (variables p)));
     completes := fun ps => (100 - length ps)%nat |}.

(** A service that reports a level beyond the range of a cell. *)
Definition huge : Env :=
  {| env_headers := <["authorization" := "Bearer key"]> headers;
     service := fun _ _ => Level (2 ^ 63);
     completes := fun _ => O |}.

(** A service that answers every pixel with level 3, except the pixel
    [(1, 2)]: every post for it fails. *)
Definition one_bad_pixel : Env :=
  {| env_headers := <["authorization" := "Bearer key"]> headers;
     service := fun p _ =>
       if bool_decide (p = make_payload 1 2)
       then Failure (ClientError "reset") else Level 3;
     completes := fun _ => O |}.

(** A service that fails once for each payload and then answers level 7,
    with a key configured: a fetch that retried would get its level at
    the second post. *)
Definition flaky_with_key : Env :=
  {| env_headers := <["authorization" := "Bearer key"]> headers;
     service := fun _ i => if (i =? 0)%nat then Failure (ClientError "reset")
                           else Level 7;
     completes := fun _ => O |}.

(** A service that fails once for each payload, then answers level 7; the
    headers are the module's. *)
Definition fails_once : Env :=
  {| env_headers := headers;
     service := fun _ i => if (i =? 0)%nat then Failure (ClientError "reset")
                           else Level 7;
     completes := fun _ => O |}.

(** * Properties *)

(** ** The monad *)

Section Monad_laws.
Context {A B : Type}.

Lemma bind_Ret (m : M A) (k : A -> M B) w a w' :
  m w = (Ret a, w') -> bind m k w = k a w'.
Proof. intros Hm. unfold bind. now rewrite Hm. Qed.

Lemma bind_Raise (m : M A) (k : A -> M B) w e w' :
  m w = (Raise e, w') -> bind m k w = (Raise e, w').
Proof. intros Hm. unfold bind. now rewrite Hm. Qed.

Lemma bind_lift_Ret (a : A) (k : A -> M B) w :
  bind (lift (Ret a)) k w = k a w.
Proof. reflexivity. Qed.

Lemma bind_ret (a : A) (k : A -> M B) w :
  bind (ret a) k w = k a w.
Proof. reflexivity. Qed.
End Monad_laws.

(** ** np.ndindex and membership *)

Lemma py_in_spec (p : Z * Z) (it : list (Z * Z)) :
  py_in p it = true <-> p ∈ it.
Proof.
  unfold py_in. rewrite existsb_exists. split.
  - intros [[a b] [Hin Heq]]. apply andb_true_iff in Heq as [Ha Hb].
    apply Z.eqb_eq in Ha, Hb. destruct p as [c d]; simpl in *; subst.
    now apply list_elem_of_In.
  - intros Hin. exists p. split; [now apply list_elem_of_In|].
    now rewrite !Z.eqb_refl.
Qed.

Lemma np_ndindex_Ret (n m : Z) :
  0 <= n -> 0 <= m -> np_ndindex n m = Ret (index_pairs n m).
Proof.
  intros Hn Hm. unfold np_ndindex.
  destruct (Z.ltb_spec n 0); [lia|]. destruct (Z.ltb_spec m 0); [lia|].
  reflexivity.
Qed.

Lemma np_ndindex_negative (n m : Z) :
  n < 0 \/ m < 0 -> np_ndindex n m = Raise ValueError.
Proof.
  intros H. unfold np_ndindex.
  destruct (Z.ltb_spec n 0); [reflexivity|].
  destruct (Z.ltb_spec m 0); [reflexivity|lia].
Qed.

Lemma elem_of_index_pairs (n m a b : Z) :
  (a, b) ∈ index_pairs n m <-> (0 <= a < n /\ 0 <= b < m).
Proof.
  unfold index_pairs. rewrite list_elem_of_In, in_flat_map. split.
  - intros [i [Hi Hab]]. apply in_map_iff in Hab as [j [Heq Hj]].
    apply list_elem_of_In, elem_of_seqZ in Hi.
    apply list_elem_of_In, elem_of_seqZ in Hj.
    inversion Heq; subst. lia.
  - intros [Ha Hb]. exists a. split.
    + apply list_elem_of_In, elem_of_seqZ. lia.
    + apply in_map_iff. exists b. split; [reflexivity|].
      apply list_elem_of_In, elem_of_seqZ. lia.
Qed.

Lemma py_in_index_pairs (n m a b : Z) :
  py_in (a, b) (index_pairs n m) = true <-> (0 <= a < n /\ 0 <= b < m).
Proof. rewrite py_in_spec. apply elem_of_index_pairs. Qed.

Lemma NoDup_index_pairs (n m : Z) : NoDup (index_pairs n m).
Proof.
  unfold index_pairs.
  assert (Hgen : forall l : list Z, NoDup l ->
            NoDup (flat_map (fun x => map (fun y => (x, y)) (seqZ 0 m)) l)).
  { induction l as [|i l IH]; intros Hnd; simpl; [constructor|].
    apply NoDup_cons in Hnd as [Hi Hl].
    apply NoDup_app. split; [|split].
    - apply (NoDup_fmap_2 (fun y => (i, y))), NoDup_seqZ.
    - intros [a b] H1 H2.
      apply list_elem_of_In, in_map_iff in H1 as [j [Heq _]].
      apply list_elem_of_In, in_flat_map in H2 as [i' [Hi' Hab]].
      apply in_map_iff in Hab as [j' [Heq' _]].
      inversion Heq; inversion Heq'; subst. subst.
      apply Hi. now apply list_elem_of_In.
    - now apply IH. }
  apply Hgen, NoDup_seqZ.
Qed.

(** ** is_valid *)

(** With non-negative [x2] and [y2], the test passes exactly for a
    non-empty sector inside the canvas, and prints otherwise. *)
Lemma is_valid_true (x1 y1 x2 y2 : Z) (w : World) :
  0 <= x1 < x2 -> x2 <= 700 -> 0 <= y1 < y2 -> y2 <= 700 ->
  is_valid (x1, y1, x2, y2) w = (Ret true, w).
Proof.
  intros Hx Hx2 Hy Hy2. unfold is_valid.
  rewrite np_ndindex_Ret by lia. rewrite bind_lift_Ret.
  assert (H1 : py_in (x1, y1) (index_pairs x2 y2) = true)
    by (apply py_in_index_pairs; lia).
  rewrite H1. unfold max_x, max_y.
  rewrite np_ndindex_Ret by lia. rewrite bind_lift_Ret.
  assert (H2 : py_in (x2, y2) (index_pairs (700 + 1) (700 + 1)) = true)
    by (apply py_in_index_pairs; lia).
  now rewrite H2.
Qed.

Lemma is_valid_false (x1 y1 x2 y2 : Z) (w : World) :
  0 <= x2 -> 0 <= y2 ->
  ~ (0 <= x1 < x2 /\ x2 <= 700 /\ 0 <= y1 < y2 /\ y2 <= 700) ->
  is_valid (x1, y1, x2, y2) w =
    (Ret false, {| stdout := stdout w ++ [MsgInvalidSector (x1, y1, x2, y2)];
                   posts := posts w; shown := shown w |}).
Proof.
  intros Hx2 Hy2 Hnot. unfold is_valid.
  rewrite np_ndindex_Ret by lia. rewrite bind_lift_Ret.
  destruct (py_in (x1, y1) (index_pairs x2 y2)) eqn:H1.
  - unfold max_x, max_y. rewrite np_ndindex_Ret by lia. rewrite bind_lift_Ret.
    destruct (py_in (x2, y2) (index_pairs (700 + 1) (700 + 1))) eqn:H2.
    + exfalso. apply Hnot.
      apply py_in_index_pairs in H1. apply py_in_index_pairs in H2. lia.
    + reflexivity.
  - reflexivity.
Qed.

Lemma is_valid_negative (x1 y1 x2 y2 : Z) (w : World) :
  x2 < 0 \/ y2 < 0 -> is_valid (x1, y1, x2, y2) w = (Raise ValueError, w).
Proof.
  intros H. unfold is_valid. now rewrite np_ndindex_negative.
Qed.

Lemma is_valid_inv (x1 y1 x2 y2 : Z) (w w' : World) :
  is_valid (x1, y1, x2, y2) w = (Ret true, w') ->
  0 <= x1 < x2 /\ x2 <= 700 /\ 0 <= y1 < y2 /\ y2 <= 700.
Proof.
  intros H.
  destruct (Z.lt_ge_cases x2 0) as [Hx|Hx];
    [rewrite is_valid_negative in H by lia; discriminate|].
  destruct (Z.lt_ge_cases y2 0) as [Hy|Hy];
    [rewrite is_valid_negative in H by lia; discriminate|].
  destruct (decide (0 <= x1 < x2 /\ x2 <= 700 /\ 0 <= y1 < y2 /\ y2 <= 700))
    as [Hok|Hno]; [exact Hok|].
  rewrite is_valid_false in H by assumption. discriminate.
Qed.

(** ** The fetcher *)

Lemma posted_nil (w : World) : posted w [] = w.
Proof. destruct w. unfold posted. simpl. now rewrite app_nil_r. Qed.

Lemma posted_app (w : World) (ps qs : list Payload) :
  posted (posted w ps) qs = posted w (ps ++ qs).
Proof. unfold posted. simpl. now rewrite app_assoc. Qed.

Lemma times_posted_same (p : Payload) (w : World) :
  times_posted p (posted w [p]) = S (times_posted p w).
Proof.
  unfold times_posted, posted. simpl.
  rewrite filter_app, length_app. simpl.
  rewrite filter_cons_True by reflexivity. simpl. lia.
Qed.

Lemma times_posted_other (p q : Payload) (w : World) :
  q <> p -> times_posted p (posted w [q]) = times_posted p w.
Proof.
  intros Hne. unfold times_posted, posted. simpl.
  rewrite filter_app, length_app. simpl.
  rewrite filter_cons_False by exact Hne. simpl. lia.
Qed.

Lemma session_post_eq (env : Env) (p : Payload) (w : World) :
  session_post env p w = (Ret (service env p (times_posted p w)), posted w [p]).
Proof. reflexivity. Qed.

Lemma load_time_unbound :
  load_name module_names "time" = raise (NameError "time").
Proof. reflexivity. Qed.

(** A first answer that is a level is returned at once. *)
Lemma fetch_first_answer (names : list string) (env : Env) (fuel : nat)
    (px py level : Z) (w : World) :
  service env (make_payload px py) (times_posted (make_payload px py) w)
    = Level level ->
  fetch_pixel_level_in names env (S fuel) (px, py) w
    = (Ret (px, py, level), posted w [make_payload px py]).
Proof.
  intros Hs. unfold fetch_pixel_level_in. simpl.
  erewrite bind_Ret by apply session_post_eq. now rewrite Hs.
Qed.

(** Were [time] imported, the loop would go on to the first level: after
    [n] failures it has posted [n + 1] times.  It has printed nothing,
    whatever [n]: [tries] starts from 0 in every round, so it never
    reaches a multiple of 10. *)
Lemma fetch_loop_with_time (names : list string) (env : Env) (n : nat) :
  "time"%string ∈ names ->
  forall (fuel : nat) (px py level : Z) (w : World),
  (forall i, (i < n)%nat ->
     exists e, service env (make_payload px py)
                 (times_posted (make_payload px py) w + i)%nat = Failure e) ->
  service env (make_payload px py)
    (times_posted (make_payload px py) w + n)%nat = Level level ->
  fetch_loop names env (S n + fuel) px py (make_payload px py) w
    = (Ret (px, py, level), posted w (replicate (S n) (make_payload px py))).
Proof.
  intros Htime. induction n as [|n IH]; intros fuel px py level w Hfail Hok.
  - rewrite Nat.add_0_r in Hok. simpl.
    erewrite bind_Ret by apply session_post_eq. now rewrite Hok.
  - destruct (Hfail O ltac:(lia)) as [e He]. rewrite Nat.add_0_r in He.
    change (S (S n) + fuel)%nat with (S (S n + fuel)).
    cbn [fetch_loop].
    erewrite bind_Ret by apply session_post_eq. rewrite He.
    change (0 + 1) with 1. change (1 mod 10 =? 0) with false. cbv iota.
    rewrite bind_ret.
    unfold load_name. rewrite bool_decide_eq_true_2 by exact Htime.
    rewrite bind_ret.
    rewrite (IH fuel px py level).
    + rewrite posted_app. reflexivity.
    + intros i Hi. destruct (Hfail (S i) ltac:(lia)) as [e' He'].
      exists e'. rewrite times_posted_same.
      now replace (S (times_posted (make_payload px py) w) + i)%nat
        with (times_posted (make_payload px py) w + S i)%nat by lia.
    + rewrite times_posted_same.
      now replace (S (times_posted (make_payload px py) w) + n)%nat
        with (times_posted (make_payload px py) w + S n)%nat by lia.
Qed.

(** A first answer that is a failure ends the call: the handler reaches
    [time.sleep], nothing binds [time], and the [NameError] leaves the
    coroutine after a single post and without any log. *)
Lemma fetch_first_failure (env : Env) (fuel : nat) (px py : Z)
    (e : exn) (w : World) :
  service env (make_payload px py) (times_posted (make_payload px py) w)
    = Failure e ->
  fetch_pixel_level env (S fuel) (px, py) w
    = (Raise (NameError "time"), posted w [make_payload px py]).
Proof.
  intros Hs. unfold fetch_pixel_level, fetch_pixel_level_in.
  cbn [fetch_loop].
  erewrite bind_Ret by apply session_post_eq. rewrite Hs.
  change (0 + 1) with 1. change (1 mod 10 =? 0) with false. cbv iota.
  rewrite bind_ret. rewrite load_time_unbound. reflexivity.
Qed.

(** C1. The claim: a call whose first N answers are errors retries N
    times, logs every tenth failure and returns the level of answer
    N + 1.  The module does not do so for any N >= 1: whatever the fuel,
    a first failed answer makes the call raise [NameError] for [time],
    after one post, with nothing printed and no retry. *)
Theorem fetch_aborts_on_first_failure (env : Env) (fuel : nat) (px py : Z)
    (e : exn) (w : World) :
  answer env w px py = Failure e ->
  fetch_pixel_level env (S fuel) (px, py) w
    = (Raise (NameError "time"),
       {| stdout := stdout w; posts := posts w ++ [make_payload px py];
          shown := shown w |}).
Proof.
  unfold answer. intros Hs.
  unfold fetch_pixel_level, fetch_pixel_level_in.
  cbn [fetch_loop].
  (* the post, answered by the failure *)
  erewrite bind_Ret by apply session_post_eq. rewrite Hs.
  (* tries = 1: no log *)
  change (0 + 1) with 1. change (1 mod 10 =? 0) with false. cbv iota.
  rewrite bind_ret.
  (* time.sleep: the name is unbound *)
  rewrite load_time_unbound. reflexivity.
Qed.

Lemma fetch_aborts_on_first_failure_witness :
  fetch_pixel_level fails_once 2 (3, 4) initial_world
    = (Raise (NameError "time"),
       {| stdout := []; posts := [make_payload 3 4]; shown := [] |}).
Proof.
  apply (fetch_aborts_on_first_failure fails_once 1 3 4 (ClientError "reset")).
  reflexivity.
Defined.

(** C6. The payload of every post of a fetch carries the swapped pair:
    [pixel.x] is [y] and [pixel.y] is [x]; and a fetch posts at least
    once. *)
Theorem payload_swaps_axes (env : Env) (fuel : nat) (px py : Z) (w : World) :
  x (pixel (variables (make_payload px py))) = py /\
  y (pixel (variables (make_payload px py))) = px /\
  exists n : nat,
    snd (fetch_pixel_level env (S fuel) (px, py) w)
      = posted w (replicate (S n) (make_payload px py)).
Proof.
  split; [reflexivity|]. split; [reflexivity|].
  destruct (service env (make_payload px py)
              (times_posted (make_payload px py) w)) as [level|e] eqn:Hs.
  - exists O. unfold fetch_pixel_level.
    now rewrite (fetch_first_answer _ _ _ _ _ level).
  - exists O. now rewrite (fetch_first_failure _ _ _ _ e).
Qed.

(** ** The sector driver: validation and configuration *)

Lemma np_zeros_Ret (h w : Z) :
  0 <= h -> 0 <= w -> np_zeros h w = Ret (zeros (Z.to_nat h) (Z.to_nat w)).
Proof.
  intros Hh Hw. unfold np_zeros.
  destruct (Z.ltb_spec h 0); [lia|]. destruct (Z.ltb_spec w 0); [lia|].
  reflexivity.
Qed.

Lemma py_floordiv_Ret (a b : Z) : b <> 0 -> py_floordiv a b = Ret (a / b).
Proof.
  intros Hb. unfold py_floordiv. destruct (Z.eqb_spec b 0); [lia|reflexivity].
Qed.

Lemma ceil_truediv_Ret (a b : Z) :
  b <> 0 -> ceil_truediv a b = Ret (- ((- a) / b)).
Proof.
  intros Hb. unfold ceil_truediv. destruct (Z.eqb_spec b 0); [lia|reflexivity].
Qed.

(** The ceiling of [a / b]: the least [n] with [a <= n * b]. *)
Lemma ceil_bounds (a b : Z) :
  0 < b -> (- ((- a) / b) - 1) * b < a <= - ((- a) / b) * b.
Proof.
  intros Hb.
  pose proof (Z.div_mod (- a) b ltac:(lia)) as Hdm.
  pose proof (Z.mod_pos_bound (- a) b Hb) as Hmod.
  nia.
Qed.

Lemma columns_per_batch_bounds (h : Z) :
  1 <= h <= 700 -> 14 <= max_conc_req / h /\ max_conc_req / h * h <= max_conc_req.
Proof.
  intros Hh. unfold max_conc_req. split.
  - apply Z.div_le_lower_bound; lia.
  - pose proof (Z.mul_div_le 10000 h ltac:(lia)). lia.
Qed.

(** What the driver does once the sector passed [is_valid]. *)
Lemma get_level_data_valid (env : Env) (fuel : nat) (x1 y1 x2 y2 : Z) (w : World) :
  0 <= x1 < x2 -> x2 <= 700 -> 0 <= y1 < y2 -> y2 <= 700 ->
  get_level_data env fuel (x1, y1, x2, y2) w =
    (authorized <- check_auth (env_headers env) ;;
     if authorized
     then
       print (MsgSending ((x2 - x1) * (y2 - y1))
                (- ((- (y2 - y1)) / (max_conc_req / (x2 - x1))))) ;;;
       for_each (seqZ 0 (- ((- (y2 - y1)) / (max_conc_req / (x2 - x1)))))
         (run_batch env fuel (x1, y1, x2, y2) (max_conc_req / (x2 - x1)))
         (zeros (Z.to_nat (x2 - x1)) (Z.to_nat (y2 - y1)))
     else ret (zeros (Z.to_nat (x2 - x1)) (Z.to_nat (y2 - y1)))) w.
Proof.
  intros Hx Hx2 Hy Hy2. unfold get_level_data.
  erewrite bind_Ret by (apply is_valid_true; assumption).
  cbn [negb].
  pose proof (columns_per_batch_bounds (x2 - x1) ltac:(lia)) as [Hk _].
  rewrite py_floordiv_Ret by lia. rewrite bind_lift_Ret.
  rewrite ceil_truediv_Ret by lia. rewrite bind_lift_Ret.
  rewrite np_zeros_Ret by lia. rewrite bind_lift_Ret.
  reflexivity.
Qed.

Lemma get_level_data_invalid (env : Env) (fuel : nat) (x1 y1 x2 y2 : Z) (w : World) :
  0 <= x2 -> 0 <= y2 ->
  ~ (0 <= x1 < x2 /\ x2 <= 700 /\ 0 <= y1 < y2 /\ y2 <= 700) ->
  get_level_data env fuel (x1, y1, x2, y2) w =
    (Ret (zeros 1 1),
     {| stdout := stdout w ++ [MsgInvalidSector (x1, y1, x2, y2)];
        posts := posts w; shown := shown w |}).
Proof.
  intros Hx2 Hy2 Hnot. unfold get_level_data.
  erewrite bind_Ret by (apply is_valid_false; assumption).
  reflexivity.
Qed.

(** C10. A sector that [is_valid] accepts has a height between 1 and 700;
    so [max_conc_req // h] is at least 14, and neither it nor the count of
    batches [ceil(w / num_col_batch)] divides by zero. *)
Theorem accepted_sector_never_divides_by_zero (x1 y1 x2 y2 : Z) (w w' : World) :
  is_valid (x1, y1, x2, y2) w = (Ret true, w') ->
  1 <= x2 - x1 <= 700 /\
  exists num_col_batch num_batches : Z,
    py_floordiv max_conc_req (x2 - x1) = Ret num_col_batch /\
    14 <= num_col_batch /\
    ceil_truediv (y2 - y1) num_col_batch = Ret num_batches /\
    (num_batches - 1) * num_col_batch < y2 - y1 <= num_batches * num_col_batch.
Proof.
  intros Hv. apply is_valid_inv in Hv as (Hx & Hx2 & Hy & Hy2).
  split; [lia|].
  pose proof (columns_per_batch_bounds (x2 - x1) ltac:(lia)) as [Hk _].
  exists (max_conc_req / (x2 - x1)), (- ((- (y2 - y1)) / (max_conc_req / (x2 - x1)))).
  split; [apply py_floordiv_Ret; lia|]. split; [exact Hk|].
  split; [apply ceil_truediv_Ret; lia|].
  apply ceil_bounds. lia.
Qed.

Lemma accepted_sector_never_divides_by_zero_witness :
  1 <= 259 - 217 <= 700 /\
  exists num_col_batch num_batches : Z,
    py_floordiv max_conc_req (259 - 217) = Ret num_col_batch /\
    14 <= num_col_batch /\
    ceil_truediv (273 - 231) num_col_batch = Ret num_batches /\
    (num_batches - 1) * num_col_batch < 273 - 231 <= num_batches * num_col_batch.
Proof.
  apply (accepted_sector_never_divides_by_zero 217 231 259 273
           initial_world initial_world).
  vm_compute. reflexivity.
Defined.

(** C4, the claim as it stands fails: the empty sector [(0, 0, 0, 0)]
    satisfies [0 <= x1 <= x2 <= 700] and [0 <= y1 <= y2 <= 700], and
    [is_valid] rejects it, because [(x1, y1)] has to be an index of an
    [x2] by [y2] array. *)
Lemma empty_sector_is_rejected :
  (0 <= 0 <= 0 /\ 0 <= 700 /\ 0 <= 0 <= 0 /\ 0 <= 700) /\
  is_valid (0, 0, 0, 0) initial_world =
    (Ret false, {| stdout := [MsgInvalidSector (0, 0, 0, 0)];
                   posts := []; shown := [] |}).
Proof. split; [lia|reflexivity]. Qed.

(** C4, amended.  For non-negative [x2] and [y2], the driver accepts a
    sector exactly when [0 <= x1 < x2 <= 700] and [0 <= y1 < y2 <= 700];
    any other such sector makes it print the diagnostic and return the
    1 by 1 zero array, without a post. *)
Theorem driver_accepts_nonempty_sectors_in_canvas (env : Env) (fuel : nat)
    (x1 y1 x2 y2 : Z) (w : World) :
  0 <= x2 -> 0 <= y2 ->
  (is_valid (x1, y1, x2, y2) w = (Ret true, w)
     <-> (0 <= x1 < x2 /\ x2 <= 700 /\ 0 <= y1 < y2 /\ y2 <= 700)) /\
  (~ (0 <= x1 < x2 /\ x2 <= 700 /\ 0 <= y1 < y2 /\ y2 <= 700) ->
   get_level_data env fuel (x1, y1, x2, y2) w =
     (Ret (zeros 1 1),
      {| stdout := stdout w ++ [MsgInvalidSector (x1, y1, x2, y2)];
         posts := posts w; shown := shown w |})).
Proof.
  intros Hx2 Hy2. split.
  - split.
    + apply is_valid_inv.
    + intros (Hx & Hx2' & Hy & Hy2'). now apply is_valid_true.
  - now apply get_level_data_invalid.
Qed.

(** The sector [(650, 650, 750, 700)] leaves the canvas: no post, the
    diagnostic, and the 1 by 1 zero array. *)
Lemma driver_accepts_nonempty_sectors_in_canvas_witness :
  (is_valid (650, 650, 750, 700) initial_world = (Ret true, initial_world)
     <-> (0 <= 650 < 750 /\ 750 <= 700 /\ 0 <= 650 < 700 /\ 700 <= 700)) /\
  (~ (0 <= 650 < 750 /\ 750 <= 700 /\ 0 <= 650 < 700 /\ 700 <= 700) ->
   get_level_data fails_once 1 (650, 650, 750, 700) initial_world =
     (Ret (zeros 1 1),
      {| stdout := stdout initial_world ++ [MsgInvalidSector (650, 650, 750, 700)];
         posts := posts initial_world; shown := shown initial_world |})).
Proof.
  apply (driver_accepts_nonempty_sectors_in_canvas fails_once 1 650 650 750 700
           initial_world); lia.
Defined.

(** ** check_auth *)

Lemma check_auth_missing (hdrs : gmap string string) (w : World) :
  hdrs !! "authorization"%string = None \/
  hdrs !! "authorization"%string = Some ""%string ->
  check_auth hdrs w =
    (Ret false, {| stdout := stdout w ++ [MsgAddAuthorization];
                   posts := posts w; shown := shown w |}).
Proof.
  intros [H|H]; unfold check_auth; rewrite H; reflexivity.
Qed.

Lemma check_auth_present (hdrs : gmap string string) (key : string) (w : World) :
  hdrs !! "authorization"%string = Some key -> key <> ""%string ->
  check_auth hdrs w = (Ret true, w).
Proof.
  intros H Hne. unfold check_auth. rewrite H.
  now rewrite bool_decide_eq_false_2.
Qed.

(** C7. Without an authorization key, or with an empty one, the driver
    on a valid sector prints the diagnostic, posts nothing and returns
    the array of zeros it had allocated for the sector: no cell is
    fetched. *)
Theorem missing_authorization_fetches_nothing (env : Env) (fuel : nat)
    (x1 y1 x2 y2 : Z) (w : World) :
  0 <= x1 < x2 -> x2 <= 700 -> 0 <= y1 < y2 -> y2 <= 700 ->
  env_headers env !! "authorization"%string = None \/
  env_headers env !! "authorization"%string = Some ""%string ->
  get_level_data env fuel (x1, y1, x2, y2) w =
    (Ret (zeros (Z.to_nat (x2 - x1)) (Z.to_nat (y2 - y1))),
     {| stdout := stdout w ++ [MsgAddAuthorization];
        posts := posts w; shown := shown w |}).
Proof.
  intros Hx Hx2 Hy Hy2 Hauth.
  rewrite get_level_data_valid by assumption.
  erewrite bind_Ret by (apply check_auth_missing; exact Hauth).
  reflexivity.
Qed.

(** The module as it is distributed: [headers] has an empty key. *)
Lemma missing_authorization_fetches_nothing_witness :
  get_level_data fails_once 1 (217, 231, 259, 273) initial_world =
    (Ret (zeros (Z.to_nat (259 - 217)) (Z.to_nat (273 - 231))),
     {| stdout := stdout initial_world ++ [MsgAddAuthorization];
        posts := posts initial_world; shown := shown initial_world |}).
Proof.
  apply (missing_authorization_fetches_nothing fails_once 1 217 231 259 273
           initial_world); try lia.
  right. reflexivity.
Defined.

(** ** The renderer *)

(** C9. A grid whose maximum is 0 is not shown; a grid whose maximum is
    positive is shown, with the extent [[y1, y2, x2, x1]]. *)
Theorem plot_shows_only_positive_maximum (data : ndarray) (x1 y1 x2 y2 : Z)
    (max_level : Z) (w : World) :
  np_amax data = Ret max_level ->
  (max_level = 0 ->
     plot_level_map_from_data data (x1, y1, x2, y2) w = (Ret tt, w)) /\
  (0 < max_level ->
     plot_level_map_from_data data (x1, y1, x2, y2) w =
       (Ret tt,
        {| stdout := stdout w; posts := posts w;
           shown := shown w ++
             [{| image := data; extent := [y1; y2; x2; x1];
                 log_norm := true; colorbar := true;
                 title_sector := (x1, y1, x2, y2);
                 title_max := max_level |}] |})).
Proof.
  intros Hmax. unfold plot_level_map_from_data. rewrite Hmax, bind_lift_Ret.
  split; intros Hm.
  - subst. reflexivity.
  - destruct (Z.ltb_spec 0 max_level); [reflexivity|lia].
Qed.

Lemma plot_shows_only_positive_maximum_witness :
  (0 = 0 ->
     plot_level_map_from_data (zeros 2 3) (0, 0, 2, 3) initial_world
       = (Ret tt, initial_world)) /\
  (0 < 0 ->
     plot_level_map_from_data (zeros 2 3) (0, 0, 2, 3) initial_world =
       (Ret tt,
        {| stdout := stdout initial_world; posts := posts initial_world;
           shown := shown initial_world ++
             [{| image := zeros 2 3; extent := [0; 3; 2; 0];
                 log_norm := true; colorbar := true;
                 title_sector := (0, 0, 2, 3);
                 title_max := 0 |}] |})).
Proof.
  apply (plot_shows_only_positive_maximum (zeros 2 3) 0 0 2 3 0 initial_world).
  reflexivity.
Defined.


(** ** Arrays *)

Lemma norm_index_lt (n : nat) (i : Z) (r : nat) :
  norm_index n i = Some r -> (r < n)%nat.
Proof.
  unfold norm_index. intros H.
  destruct ((0 <=? i) && (i <? Z.of_nat n)) eqn:H1.
  - apply andb_true_iff in H1 as [Ha Hb].
    apply Z.leb_le in Ha. apply Z.ltb_lt in Hb. inversion H. lia.
  - destruct ((- Z.of_nat n <=? i) && (i <? 0)) eqn:H2; [|discriminate].
    apply andb_true_iff in H2 as [Ha Hb].
    apply Z.leb_le in Ha. apply Z.ltb_lt in Hb. inversion H. lia.
Qed.

Lemma norm_index_in_range (n : nat) (i : Z) :
  0 <= i < Z.of_nat n -> norm_index n i = Some (Z.to_nat i).
Proof.
  intros Hi. unfold norm_index.
  destruct (Z.leb_spec 0 i); [|lia]. destruct (Z.ltb_spec i (Z.of_nat n)); [|lia].
  reflexivity.
Qed.

Lemma norm_index_from_end (n : nat) (i : Z) :
  - Z.of_nat n <= i < 0 -> norm_index n i = Some (Z.to_nat (i + Z.of_nat n)).
Proof.
  intros Hi. unfold norm_index.
  destruct (Z.leb_spec 0 i); [lia|]. simpl.
  destruct (Z.leb_spec (- Z.of_nat n) i); [|lia].
  destruct (Z.ltb_spec i 0); [|lia]. reflexivity.
Qed.

Lemma norm_index_out (n : nat) (i : Z) :
  i < - Z.of_nat n \/ Z.of_nat n <= i -> norm_index n i = None.
Proof.
  intros Hi. unfold norm_index.
  destruct (Z.leb_spec 0 i), (Z.ltb_spec i (Z.of_nat n)),
    (Z.leb_spec (- Z.of_nat n) i), (Z.ltb_spec i 0); simpl; try reflexivity; lia.
Qed.

Lemma well_shaped_zeros (h w : nat) : well_shaped (zeros h w).
Proof.
  split; simpl.
  - apply length_replicate.
  - apply Forall_replicate, length_replicate.
Qed.

Lemma getitem_zeros (h w r c : nat) :
  (r < h)%nat -> (c < w)%nat -> getitem (zeros h w) r c = Some 0.
Proof.
  intros Hr Hc. unfold getitem, zeros. simpl.
  rewrite lookup_replicate_2 by exact Hr. simpl.
  now apply lookup_replicate_2.
Qed.

Lemma getitem_Some_lt (data : ndarray) (r c : nat) (v : Z) :
  well_shaped data -> getitem data r c = Some v ->
  (r < nrows data)%nat /\ (c < ncols data)%nat.
Proof.
  intros [Hlen Hrows] Hget. unfold getitem in Hget.
  destruct (rows data !! r) as [row|] eqn:Hrow; [|discriminate].
  simpl in Hget. split.
  - rewrite <- Hlen. now apply lookup_lt_Some in Hrow.
  - rewrite Forall_forall in Hrows.
    rewrite <- (Hrows row) by (now apply list_elem_of_lookup_2 in Hrow).
    now apply lookup_lt_Some in Hget.
Qed.

Lemma well_shaped_write (data : ndarray) (r c : nat) (v : Z) :
  well_shaped data -> well_shaped (write data r c v).
Proof.
  intros [Hlen Hrows]. split; simpl.
  - now rewrite length_alter.
  - apply Forall_alter; [exact Hrows|].
    intros row Hrow. now rewrite length_insert.
Qed.

Lemma getitem_write_eq (data : ndarray) (r c : nat) (v : Z) :
  well_shaped data -> (r < nrows data)%nat -> (c < ncols data)%nat ->
  getitem (write data r c v) r c = Some v.
Proof.
  intros [Hlen Hrows] Hr Hc. unfold getitem, write. simpl.
  rewrite list_lookup_alter_eq.
  destruct (rows data !! r) as [row|] eqn:Hrow.
  - simpl. apply list_lookup_insert_eq.
    rewrite Forall_forall in Hrows.
    rewrite (Hrows row) by (now apply list_elem_of_lookup_2 in Hrow).
    exact Hc.
  - apply lookup_ge_None in Hrow. lia.
Qed.

Lemma getitem_write_ne (data : ndarray) (r c r' c' : nat) (v : Z) :
  (r, c) <> (r', c') ->
  getitem (write data r c v) r' c' = getitem data r' c'.
Proof.
  intros Hne. unfold getitem, write. simpl.
  destruct (decide (r = r')) as [->|Hr].
  - rewrite list_lookup_alter_eq.
    destruct (rows data !! r') as [row|]; [|reflexivity]. simpl.
    apply list_lookup_insert_ne. congruence.
  - now rewrite list_lookup_alter_ne.
Qed.

(** Two arrays of one shape with the same cells are the same array. *)
Lemma ndarray_ext (a b : ndarray) :
  well_shaped a -> well_shaped b -> shape a = shape b ->
  (forall r c, getitem a r c = getitem b r c) -> a = b.
Proof.
  destruct a as [ha wa ra], b as [hb wb rb].
  intros [Hla Hra] [Hlb Hrb] Hshape Hcells. simpl in *.
  inversion Hshape; subst hb wb. f_equal.
  rewrite Forall_forall in Hra, Hrb.
  apply list_eq. intros r.
  destruct (ra !! r) as [rowa|] eqn:Ha, (rb !! r) as [rowb|] eqn:Hb.
  - f_equal. apply list_eq. intros c.
    specialize (Hcells r c). unfold getitem in Hcells. simpl in Hcells.
    now rewrite Ha, Hb in Hcells.
  - apply lookup_lt_Some in Ha. apply lookup_ge_None in Hb. lia.
  - apply lookup_lt_Some in Hb. apply lookup_ge_None in Ha. lia.
  - reflexivity.
Qed.

(** ** The assembly loop *)

Lemma target_lt (h w : nat) (x1 y1 : Z) (res : Z * Z * Z) (r c : nat) :
  target h w x1 y1 res = Some (r, c) -> (r < h)%nat /\ (c < w)%nat.
Proof.
  destruct res as [[px py] level]. unfold target.
  destruct (norm_index h (px - x1)) as [r'|] eqn:Hr; [|discriminate].
  destruct (norm_index w (py - y1)) as [c'|] eqn:Hc; [|discriminate].
  destruct (fits_int level); [|discriminate].
  intros H. inversion H; subst.
  split; eapply norm_index_lt; eassumption.
Qed.

Lemma scatter_nil (x1 y1 : Z) (data : ndarray) (w : World) :
  scatter x1 y1 [] data w = (Ret data, w).
Proof. reflexivity. Qed.

Lemma scatter_cons_written (x1 y1 px py level : Z) (rest : list (Z * Z * Z))
    (data : ndarray) (w : World) (r c : nat) :
  target (nrows data) (ncols data) x1 y1 (px, py, level) = Some (r, c) ->
  scatter x1 y1 ((px, py, level) :: rest) data w
    = scatter x1 y1 rest (write data r c level) w.
Proof.
  unfold target, scatter. cbn [for_each]. intros Ht.
  unfold bind at 1. unfold try_except, lift, setitem.
  destruct (norm_index (nrows data) (px - x1)) as [r'|]; [|discriminate].
  destruct (norm_index (ncols data) (py - y1)) as [c'|]; [|discriminate].
  destruct (fits_int level); [|discriminate].
  now inversion Ht.
Qed.

Lemma scatter_cons_skipped (x1 y1 px py level : Z) (rest : list (Z * Z * Z))
    (data : ndarray) (w : World) :
  target (nrows data) (ncols data) x1 y1 (px, py, level) = None ->
  scatter x1 y1 ((px, py, level) :: rest) data w
    = scatter x1 y1 rest data (printed w [MsgProblemOnPixel px py level]).
Proof.
  unfold target, scatter. cbn [for_each]. intros Ht.
  unfold bind at 1. unfold try_except, lift, setitem.
  destruct (norm_index (nrows data) (px - x1)) as [r'|];
    [destruct (norm_index (ncols data) (py - y1)) as [c'|];
     [destruct (fits_int level); [discriminate|]|]|];
    reflexivity.
Qed.

Lemma printed_nil (w : World) : printed w [] = w.
Proof. destruct w. unfold printed. simpl. now rewrite app_nil_r. Qed.

Lemma printed_app (w : World) (ms ns : list message) :
  printed (printed w ms) ns = printed w (ms ++ ns).
Proof. unfold printed. simpl. now rewrite app_assoc. Qed.

Lemma problems_cons_written (h w : nat) (x1 y1 : Z) (res : Z * Z * Z)
    (rest : list (Z * Z * Z)) (rc : nat * nat) :
  target h w x1 y1 res = Some rc ->
  problems h w x1 y1 (res :: rest) = problems h w x1 y1 rest.
Proof. intros Ht. cbn [problems]. now rewrite Ht. Qed.

Lemma problems_cons_skipped (h w : nat) (x1 y1 : Z) (res : Z * Z * Z)
    (rest : list (Z * Z * Z)) :
  target h w x1 y1 res = None ->
  problems h w x1 y1 (res :: rest)
    = MsgProblemOnPixel (fst (fst res)) (snd (fst res)) (snd res)
        :: problems h w x1 y1 rest.
Proof. intros Ht. cbn [problems]. now rewrite Ht. Qed.

(** The assembly never raises; it reports exactly the results that write
    no cell; and each cell ends with the level of the last result that
    wrote it, or unchanged. *)
Lemma scatter_spec (x1 y1 : Z) (results : list (Z * Z * Z)) :
  forall (data : ndarray) (w : World),
  well_shaped data ->
  exists data' : ndarray,
    scatter x1 y1 results data w
      = (Ret data', printed w (problems (nrows data) (ncols data) x1 y1 results)) /\
    shape data' = shape data /\
    well_shaped data' /\
    forall r c,
      getitem data' r c =
        match written (nrows data) (ncols data) x1 y1 results r c with
        | Some v => Some v
        | None => getitem data r c
        end.
Proof.
  induction results as [|[[px py] level] rest IH]; intros data w Hws.
  - exists data. rewrite scatter_nil. cbn [problems written].
    rewrite printed_nil. auto.
  - destruct (target (nrows data) (ncols data) x1 y1 (px, py, level))
      as [[r0 c0]|] eqn:Ht.
    + rewrite (scatter_cons_written _ _ _ _ _ _ _ _ r0 c0) by exact Ht.
      destruct (IH (write data r0 c0 level) w (well_shaped_write _ _ _ _ Hws))
        as (data' & Hrun & Hshape & Hws' & Hcells).
      change (nrows (write data r0 c0 level)) with (nrows data) in Hrun, Hcells.
      change (ncols (write data r0 c0 level)) with (ncols data) in Hrun, Hcells.
      exists data'. split; [|split; [|split]].
      * rewrite Hrun. now rewrite (problems_cons_written _ _ _ _ _ _ _ Ht).
      * exact Hshape.
      * exact Hws'.
      * intros r c. rewrite Hcells. cbn [written].
        destruct (written (nrows data) (ncols data) x1 y1 rest r c) as [v|];
          [reflexivity|].
        rewrite Ht. apply target_lt in Ht as [Hr0 Hc0].
        destruct (decide ((r0, c0) = (r, c))) as [Heq|Hne].
        -- rewrite bool_decide_eq_true_2 by (now f_equal).
           inversion Heq; subst. now apply getitem_write_eq.
        -- rewrite bool_decide_eq_false_2 by congruence.
           now apply getitem_write_ne.
    + rewrite scatter_cons_skipped by exact Ht.
      destruct (IH data (printed w [MsgProblemOnPixel px py level]) Hws)
        as (data' & Hrun & Hshape & Hws' & Hcells).
      exists data'. split; [|split; [|split]].
      * rewrite Hrun, printed_app.
        now rewrite (problems_cons_skipped _ _ _ _ _ _ Ht).
      * exact Hshape.
      * exact Hws'.
      * intros r c. rewrite Hcells. cbn [written]. rewrite Ht.
        rewrite bool_decide_eq_false_2 by discriminate.
        now destruct (written (nrows data) (ncols data) x1 y1 rest r c).
Qed.

(** ** The assembly does not depend on the order of the results *)

Section Written.
Variables (h w : nat) (x1 y1 : Z).

Lemma written_Some_elem (results : list (Z * Z * Z)) (r c : nat) (v : Z) :
  written h w x1 y1 results r c = Some v ->
  exists res, res ∈ results /\ target h w x1 y1 res = Some (r, c) /\ snd res = v.
Proof.
  induction results as [|res rest IH]; [discriminate|].
  cbn [written].
  destruct (written h w x1 y1 rest r c) as [v'|] eqn:Hrest.
  - intros Hv. inversion Hv; subst.
    destruct (IH eq_refl) as (res' & Hin & Ht & Hl).
    exists res'. split; [now right|auto].
  - case_bool_decide as Ht; [|discriminate].
    intros Hv. inversion Hv; subst.
    exists res. split; [now left|auto].
Qed.

Lemma written_unique (results : list (Z * Z * Z)) (res : Z * Z * Z) (r c : nat) :
  NoDup (omap (target h w x1 y1) results) ->
  res ∈ results -> target h w x1 y1 res = Some (r, c) ->
  written h w x1 y1 results r c = Some (snd res).
Proof.
  induction results as [|res0 rest IH]; intros Hnd Hin Ht.
  - now apply elem_of_nil in Hin.
  - cbn [omap list_omap] in Hnd. cbn [written].
    apply elem_of_cons in Hin as [->|Hin].
    + rewrite Ht in Hnd. apply NoDup_cons in Hnd as [Hnotin _].
      destruct (written h w x1 y1 rest r c) as [v|] eqn:Hrest.
      * exfalso. apply Hnotin.
        destruct (written_Some_elem _ _ _ _ Hrest) as (res' & Hin' & Ht' & _).
        apply list_elem_of_omap. eauto.
      * now rewrite bool_decide_eq_true_2.
    + assert (Hnd' : NoDup (omap (target h w x1 y1) rest)).
      { destruct (target h w x1 y1 res0); [|exact Hnd].
        now apply NoDup_cons in Hnd as [_ Hnd]. }
      now rewrite (IH Hnd' Hin Ht).
Qed.

Lemma written_Permutation (l l' : list (Z * Z * Z)) (r c : nat) :
  NoDup (omap (target h w x1 y1) l) -> l ≡ₚ l' ->
  written h w x1 y1 l r c = written h w x1 y1 l' r c.
Proof.
  intros Hnd Hperm.
  assert (Hnd' : NoDup (omap (target h w x1 y1) l')) by now rewrite <- Hperm.
  destruct (written h w x1 y1 l r c) as [v|] eqn:Hl.
  - destruct (written_Some_elem _ _ _ _ Hl) as (res & Hin & Ht & <-).
    symmetry. apply written_unique; [exact Hnd'| |exact Ht].
    now rewrite <- Hperm.
  - destruct (written h w x1 y1 l' r c) as [v|] eqn:Hl'; [|reflexivity].
    destruct (written_Some_elem _ _ _ _ Hl') as (res & Hin & Ht & <-).
    rewrite <- Hl. apply written_unique; [exact Hnd| |exact Ht].
    now rewrite Hperm.
Qed.
End Written.

(** Results that write distinct cells can be assembled in any order. *)
Lemma scatter_Permutation (x1 y1 : Z) (l l' : list (Z * Z * Z))
    (data : ndarray) (w w' : World) :
  well_shaped data ->
  NoDup (omap (target (nrows data) (ncols data) x1 y1) l) ->
  l ≡ₚ l' ->
  fst (scatter x1 y1 l' data w') = fst (scatter x1 y1 l data w).
Proof.
  intros Hws Hnd Hperm.
  destruct (scatter_spec x1 y1 l data w Hws) as (d & Hrun & Hshape & Hwsd & Hcells).
  destruct (scatter_spec x1 y1 l' data w' Hws)
    as (d' & Hrun' & Hshape' & Hwsd' & Hcells').
  rewrite Hrun, Hrun'. simpl. f_equal.
  apply ndarray_ext; [exact Hwsd'|exact Hwsd|congruence|].
  intros r c. rewrite Hcells, Hcells'.
  now rewrite (written_Permutation _ _ _ _ l l' r c Hnd Hperm).
Qed.

(** ** The event loop *)

Lemma make_payload_inj (px py qx qy : Z) :
  make_payload px py = make_payload qx qy -> (px, py) = (qx, qy).
Proof. intros H. inversion H. reflexivity. Qed.

Lemma payload_of_inj (p q : Z * Z) : payload_of p = payload_of q -> p = q.
Proof.
  destruct p, q. unfold payload_of. simpl. apply make_payload_inj.
Qed.

Lemma times_posted_app (p : Payload) (w w' : World) (ps : list Payload) :
  posts w' = posts w ++ ps -> p ∉ ps -> times_posted p w' = times_posted p w.
Proof.
  intros Hposts Hnotin. unfold times_posted. rewrite Hposts, filter_app, length_app.
  assert (Hnone : filter (fun q => q = p) ps = []).
  { clear Hposts. induction ps as [|q ps IH]; [reflexivity|].
    apply not_elem_of_cons in Hnotin as [Hne Hnotin].
    rewrite filter_cons_False by congruence. now apply IH. }
  rewrite Hnone. simpl. lia.
Qed.

Lemma answer_after (env : Env) (w w' : World) (ps : list Payload) (px py : Z) :
  posts w' = posts w ++ ps -> make_payload px py ∉ ps ->
  answer env w' px py = answer env w px py.
Proof.
  intros Hposts Hnotin. unfold answer.
  now rewrite (times_posted_app _ w w' ps).
Qed.

Lemma fetch_answered (env : Env) (fuel : nat) (p : Z * Z) (level : Z) (w : World) :
  answer env w (fst p) (snd p) = Level level ->
  fetch_pixel_level env (S fuel) p w
    = (Ret (fst p, snd p, level), posted w [payload_of p]).
Proof.
  destruct p as [px py]. intros Ha. now apply fetch_first_answer.
Qed.

Section Complete.
Variables (env : Env) (fuel : nat) (lvl : Z -> Z -> Z).

Let task (kp : nat * (Z * Z)) : nat * M (Z * Z * Z) :=
  (fst kp, fetch_pixel_level env (S fuel) (snd kp)).

Lemma complete_fetches (n : nat) :
  forall (waiting : list (nat * (Z * Z))) (slots : list (option (Z * Z * Z)))
         (w : World),
  length waiting = n ->
  NoDup (waiting.*1) -> NoDup (waiting.*2) ->
  (forall kp, kp ∈ waiting ->
     answer env w (fst (snd kp)) (snd (snd kp))
       = Level (lvl (fst (snd kp)) (snd (snd kp)))) ->
  exists (slots' : list (option (Z * Z * Z))) (ps : list Payload),
    complete env n (task <$> waiting) slots w = (Ret slots', posted w ps) /\
    ps ≡ₚ payload_of <$> waiting.*2 /\
    length slots' = length slots /\
    (forall kp, kp ∈ waiting -> (fst kp < length slots)%nat ->
       slots' !! fst kp = Some (Some (fetched lvl (snd kp)))) /\
    (forall k, k ∉ waiting.*1 -> slots' !! k = slots !! k).
Proof.
  induction n as [|n IH]; intros waiting slots w Hlen Hnd1 Hnd2 Hans.
  - destruct waiting; [|discriminate].
    exists slots, []. simpl. rewrite posted_nil.
    split; [reflexivity|]. split; [reflexivity|]. split; [reflexivity|].
    split; [|reflexivity]. intros kp Hin. now apply elem_of_nil in Hin.
  - cbn [complete]. rewrite length_fmap, Hlen.
    set (i := Nat.modulo (completes env (posts w)) (S n)).
    assert (Hi : (i < length waiting)%nat)
      by (rewrite Hlen; apply Nat.mod_upper_bound; lia).
    destruct (lookup_lt_is_Some_2 _ _ Hi) as [[k0 p0] Hkp].
    rewrite list_lookup_fmap, Hkp. simpl.
    assert (Hperm : waiting ≡ₚ (k0, p0) :: delete i waiting)
      by now apply delete_Permutation.
    assert (Hin0 : (k0, p0) ∈ waiting) by now apply list_elem_of_lookup_2 in Hkp.
    erewrite bind_Ret by (apply fetch_answered; apply (Hans _ Hin0)).
    rewrite Hperm in Hnd1, Hnd2. simpl in Hnd1, Hnd2.
    apply NoDup_cons in Hnd1 as [Hk0 Hnd1].
    apply NoDup_cons in Hnd2 as [Hp0 Hnd2].
    rewrite <- list_fmap_delete.
    destruct (IH (delete i waiting)
                (<[k0 := Some (fst p0, snd p0, lvl (fst p0) (snd p0))]> slots)
                (posted w [payload_of p0]))
      as (slots' & ps & Hrun & Hps & Hlen' & Hset & Hkeep).
    + rewrite length_delete by (exists (k0, p0); exact Hkp). lia.
    + exact Hnd1.
    + exact Hnd2.
    + intros kp Hin.
      rewrite (answer_after env w _ [payload_of p0]); [| reflexivity |].
      * apply Hans. rewrite Hperm. now right.
      * intros Hsame. apply list_elem_of_singleton in Hsame.
        apply Hp0. apply list_elem_of_fmap. exists kp. split; [|exact Hin].
        destruct kp as [k [qx qy]]. simpl in *.
        now apply (payload_of_inj (qx, qy) p0) in Hsame.
    + exists slots', (payload_of p0 :: ps). split; [|split; [|split; [|split]]].
      * rewrite posted_app in Hrun. exact Hrun.
      * rewrite Hperm. simpl. now constructor.
      * rewrite Hlen'. apply length_insert.
      * intros kp Hin Hk. rewrite Hperm in Hin.
        apply elem_of_cons in Hin as [->|Hin].
        -- simpl. rewrite (Hkeep k0 Hk0).
           now apply list_lookup_insert_eq.
        -- apply Hset; [exact Hin|]. now rewrite length_insert.
      * intros k Hk. rewrite Hperm in Hk. simpl in Hk.
        apply not_elem_of_cons in Hk as [Hne Hk].
        rewrite (Hkeep k Hk). now apply list_lookup_insert_ne.
Qed.

(** Whatever the order of completion, [gather] returns the results in
    the order of the pixels, after one post for each of them. *)
Lemma gather_fetches (pixels : list (Z * Z)) (w : World) :
  NoDup pixels ->
  (forall p, p ∈ pixels -> answer env w (fst p) (snd p) = Level (lvl (fst p) (snd p))) ->
  exists ps : list Payload,
    gather env (fetch_pixel_level env (S fuel) <$> pixels) w
      = (Ret (fetched lvl <$> pixels), posted w ps) /\
    ps ≡ₚ payload_of <$> pixels.
Proof.
  intros Hnd Hans. unfold gather.
  assert (Htasks : imap pair (fetch_pixel_level env (S fuel) <$> pixels)
                   = task <$> imap pair pixels).
  { rewrite imap_fmap, fmap_imap. now apply imap_ext. }
  assert (Hfst : (imap pair pixels).*1 = seq 0 (length pixels)).
  { rewrite fmap_imap. unfold compose. simpl.
    apply list_eq. intros k. rewrite list_lookup_imap.
    destruct (pixels !! k) eqn:Hk; simpl.
    - apply lookup_lt_Some in Hk. now rewrite lookup_seq_lt.
    - apply lookup_ge_None in Hk. now rewrite lookup_seq_ge. }
  assert (Hsnd : (imap pair pixels).*2 = pixels).
  { rewrite fmap_imap. unfold compose. simpl.
    apply list_eq. intros k. rewrite list_lookup_imap.
    now destruct (pixels !! k). }
  rewrite Htasks, length_fmap.
  destruct (complete_fetches (length pixels) (imap pair pixels)
              (replicate (length pixels) None) w)
    as (slots' & ps & Hrun & Hps & Hlen & Hset & _).
  - apply length_imap.
  - rewrite Hfst. apply NoDup_seq.
  - now rewrite Hsnd.
  - intros [k p] Hin. apply Hans. rewrite <- Hsnd.
    apply list_elem_of_fmap. now exists (k, p).
  - exists ps. rewrite Hsnd in Hps. split; [|exact Hps].
    erewrite bind_Ret by exact Hrun.
    assert (Hslots : slots' = Some <$> (fetched lvl <$> pixels)).
    { apply list_eq. intros k. rewrite !list_lookup_fmap.
      rewrite length_replicate in Hlen.
      destruct (pixels !! k) as [p|] eqn:Hk; simpl.
      - apply (Hset (k, p)).
        + apply list_elem_of_lookup. exists k.
          now rewrite list_lookup_imap, Hk.
        + rewrite length_replicate. now apply lookup_lt_Some in Hk.
      - apply lookup_ge_None. apply lookup_ge_None in Hk. lia. }
    rewrite Hslots, mapM_fmap_Some by reflexivity. reflexivity.
Qed.
End Complete.

(** ** The batch coordinator *)

Lemma elem_of_sector_pixels (x1 y1 h w px py : Z) :
  (px, py) ∈ sector_pixels x1 y1 (index_pairs h w)
  <-> (x1 <= px < x1 + h /\ y1 <= py < y1 + w).
Proof.
  unfold sector_pixels. change (map ?f ?l) with (f <$> l).
  rewrite list_elem_of_fmap. split.
  - intros [[ix iy] [Heq Hin]]. apply elem_of_index_pairs in Hin.
    inversion Heq; subst. lia.
  - intros [Hx Hy]. exists (px - x1, py - y1). split.
    + f_equal; lia.
    + apply elem_of_index_pairs. lia.
Qed.

Lemma NoDup_sector_pixels (x1 y1 h w : Z) :
  NoDup (sector_pixels x1 y1 (index_pairs h w)).
Proof.
  unfold sector_pixels. change (map ?f ?l) with (f <$> l).
  apply NoDup_fmap_2_strong; [|apply NoDup_index_pairs].
  intros [a b] [c d] _ _ Heq. inversion Heq. f_equal; lia.
Qed.

Lemma elem_of_pixels_of (x1 y1 x2 y2 px py : Z) :
  (px, py) ∈ pixels_of (x1, y1, x2, y2) <-> (x1 <= px < x2 /\ y1 <= py < y2).
Proof. unfold pixels_of. rewrite elem_of_sector_pixels. lia. Qed.

Lemma NoDup_pixels_of (sector : Sector) : NoDup (pixels_of sector).
Proof. destruct sector as [[[x1 y1] x2] y2]. apply NoDup_sector_pixels. Qed.

Lemma length_index_pairs (h w : Z) :
  0 <= h -> 0 <= w -> Z.of_nat (length (index_pairs h w)) = h * w.
Proof.
  intros Hh Hw. unfold index_pairs.
  assert (Hgen : forall l : list Z,
            length (flat_map (fun x => map (fun y => (x, y)) (seqZ 0 w)) l)
            = (length l * Z.to_nat w)%nat).
  { induction l as [|i l IH]; [reflexivity|].
    simpl. rewrite length_app, IH, length_map, length_seqZ. lia. }
  rewrite Hgen, length_seqZ. lia.
Qed.

Lemma length_pixels_of (x1 y1 x2 y2 : Z) :
  x1 <= x2 -> y1 <= y2 ->
  Z.of_nat (length (pixels_of (x1, y1, x2, y2))) = (x2 - x1) * (y2 - y1).
Proof.
  intros Hx Hy. unfold pixels_of, sector_pixels.
  rewrite length_map. apply length_index_pairs; lia.
Qed.

(** Where a result of a pixel of the sector goes. *)
Lemma target_inside (h w : nat) (x1 y1 px py level : Z) :
  0 <= px - x1 < Z.of_nat h -> 0 <= py - y1 < Z.of_nat w ->
  target h w x1 y1 (px, py, level)
    = if fits_int level
      then Some (Z.to_nat (px - x1), Z.to_nat (py - y1)) else None.
Proof.
  intros Hx Hy. unfold target.
  now rewrite !norm_index_in_range by assumption.
Qed.

Lemma NoDup_omap_inj {A B : Type} (f : A -> option B) (l : list A) :
  NoDup l ->
  (forall a b t, a ∈ l -> b ∈ l -> f a = Some t -> f b = Some t -> a = b) ->
  NoDup (omap f l).
Proof.
  induction l as [|a l IH]; intros Hnd Hinj; [constructor|].
  apply NoDup_cons in Hnd as [Ha Hnd]. cbn [omap list_omap].
  assert (Hrest : NoDup (omap f l)).
  { apply IH; [exact Hnd|]. intros b c t Hb Hc. apply Hinj; now right. }
  destruct (f a) as [t|] eqn:Hfa; [|exact Hrest].
  apply NoDup_cons. split; [|exact Hrest].
  intros Hin. apply list_elem_of_omap in Hin as (b & Hb & Hfb).
  apply Ha. rewrite (Hinj a b t); [exact Hb|now left|now right|exact Hfa|exact Hfb].
Qed.

Section Concurrent.
Variables (lvl : Z -> Z -> Z) (x1 y1 x2 y2 : Z).
Hypothesis (Hx : x1 <= x2) (Hy : y1 <= y2).

Let h := Z.to_nat (x2 - x1).
Let w := Z.to_nat (y2 - y1).

Lemma target_results_of (p : Z * Z) :
  p ∈ pixels_of (x1, y1, x2, y2) ->
  target h w x1 y1 (fetched lvl p)
    = if fits_int (lvl (fst p) (snd p))
      then Some (Z.to_nat (fst p - x1), Z.to_nat (snd p - y1)) else None.
Proof.
  destruct p as [px py]. intros Hin. apply elem_of_pixels_of in Hin.
  unfold fetched. simpl. apply target_inside; unfold h, w; lia.
Qed.

Lemma NoDup_targets :
  NoDup (omap (target h w x1 y1) (results_of lvl (x1, y1, x2, y2))).
Proof.
  unfold results_of. change (map ?f ?l) with (f <$> l).
  apply NoDup_omap_inj.
  - apply NoDup_fmap_2_strong; [|apply NoDup_pixels_of].
    intros p q _ _ Heq. unfold fetched in Heq. destruct p, q.
    simpl in Heq. now inversion Heq.
  - intros a b t Ha Hb Hta Htb.
    apply list_elem_of_fmap in Ha as [p [-> Hp]].
    apply list_elem_of_fmap in Hb as [q [-> Hq]].
    rewrite target_results_of in Hta, Htb by assumption.
    destruct (fits_int (lvl p.1 p.2)); [|discriminate].
    destruct (fits_int (lvl q.1 q.2)); [|discriminate].
    destruct p as [px py], q as [qx qy].
    apply elem_of_pixels_of in Hp, Hq. simpl in *.
    inversion Hta; subst t. inversion Htb as [[Hr Hc]].
    assert (px = qx) by lia. assert (py = qy) by lia. now subst.
Qed.

(** The cell of a pixel after the assembly of the results of the
    sector: its level, or 0 when the level does not fit the cell. *)
Lemma written_results_of (px py : Z) :
  x1 <= px < x2 -> y1 <= py < y2 ->
  written h w x1 y1 (results_of lvl (x1, y1, x2, y2))
    (Z.to_nat (px - x1)) (Z.to_nat (py - y1))
  = if fits_int (lvl px py) then Some (lvl px py) else None.
Proof.
  intros Hpx Hpy.
  assert (Hin : (px, py) ∈ pixels_of (x1, y1, x2, y2))
    by (apply elem_of_pixels_of; lia).
  pose proof (target_results_of _ Hin) as Ht. cbn [fst snd] in Ht.
  destruct (fits_int (lvl px py)) eqn:Hfits.
  - apply (written_unique h w x1 y1 _ (fetched lvl (px, py)));
      [apply NoDup_targets| |exact Ht].
    unfold results_of. change (map ?f ?l) with (f <$> l).
    now apply list_elem_of_fmap_2.
  - destruct (written h w x1 y1 (results_of lvl (x1, y1, x2, y2))
                (Z.to_nat (px - x1)) (Z.to_nat (py - y1))) as [v|] eqn:Hw;
      [|reflexivity].
    exfalso.
    apply written_Some_elem in Hw as (res & Hres & Htres & _).
    unfold results_of in Hres. change (map ?f ?l) with (f <$> l) in Hres.
    apply list_elem_of_fmap in Hres as [[qx qy] [-> Hq]].
    rewrite target_results_of in Htres by exact Hq. cbn [fst snd] in Htres.
    apply elem_of_pixels_of in Hq.
    destruct (fits_int (lvl qx qy)) eqn:Hq'; [|discriminate].
    inversion Htres as [[Hr Hc]].
    assert (px = qx) by lia. assert (py = qy) by lia. subst.
    congruence.
Qed.

Variables (env : Env) (fuel : nat) (w0 : World).
Hypothesis Hanswers : forall px py, x1 <= px < x2 -> y1 <= py < y2 ->
  answer env w0 px py = Level (lvl px py).

(** With an answer for each pixel, the coordinator posts once per
    pixel, assembles the results in the order of the pixels and reports
    the levels that do not fit. *)
Lemma concurrent_spec :
  exists (data : ndarray) (ps : list Payload),
    get_level_data_concurrent env (S fuel) (x1, y1, x2, y2) w0
      = (Ret data,
         printed (posted w0 ps)
           (problems h w x1 y1 (results_of lvl (x1, y1, x2, y2)))) /\
    ps ≡ₚ map payload_of (pixels_of (x1, y1, x2, y2)) /\
    shape data = (h, w) /\ well_shaped data /\
    (forall w', fst (scatter x1 y1 (results_of lvl (x1, y1, x2, y2))
                       (zeros h w) w') = Ret data) /\
    (forall px py, x1 <= px < x2 -> y1 <= py < y2 ->
       getitem data (Z.to_nat (px - x1)) (Z.to_nat (py - y1))
         = Some (if fits_int (lvl px py) then lvl px py else 0)).
Proof.
  unfold get_level_data_concurrent.
  rewrite np_zeros_Ret by lia. rewrite bind_lift_Ret.
  rewrite np_ndindex_Ret by lia. rewrite bind_lift_Ret.
  fold h w.
  destruct (gather_fetches env fuel lvl (pixels_of (x1, y1, x2, y2)) w0)
    as (ps & Hgather & Hps).
  { apply NoDup_pixels_of. }
  { intros [px py] Hin. apply elem_of_pixels_of in Hin. now apply Hanswers. }
  change (sector_pixels x1 y1 (index_pairs (x2 - x1) (y2 - y1)))
    with (pixels_of (x1, y1, x2, y2)).
  erewrite bind_Ret by exact Hgather.
  change (fetched lvl <$> pixels_of (x1, y1, x2, y2))
    with (results_of lvl (x1, y1, x2, y2)).
  destruct (scatter_spec x1 y1 (results_of lvl (x1, y1, x2, y2)) (zeros h w)
              (posted w0 ps) (well_shaped_zeros h w))
    as (data & Hrun & Hshape & Hws & Hcells).
  exists data, ps. split; [exact Hrun|]. split; [exact Hps|].
  split; [exact Hshape|]. split; [exact Hws|]. split.
  - intros w'.
    rewrite (scatter_Permutation x1 y1 _ _ (zeros h w) (posted w0 ps) w'
               (well_shaped_zeros h w) NoDup_targets
               (reflexivity (results_of lvl (x1, y1, x2, y2)))).
    now rewrite Hrun.
  - intros px py Hpx Hpy. rewrite Hcells.
    change (nrows (zeros h w)) with h. change (ncols (zeros h w)) with w.
    rewrite written_results_of by assumption.
    destruct (fits_int (lvl px py)); [reflexivity|].
    apply getitem_zeros; unfold h, w; lia.
Qed.
End Concurrent.

Lemma target_outside (h w : nat) (x1 y1 px py level : Z) :
  px - x1 < - Z.of_nat h \/ Z.of_nat h <= px - x1 \/
  py - y1 < - Z.of_nat w \/ Z.of_nat w <= py - y1 \/
  fits_int level = false ->
  target h w x1 y1 (px, py, level) = None.
Proof.
  intros Hout. unfold target.
  destruct (norm_index h (px - x1)) as [r|] eqn:Hr; [|reflexivity].
  destruct (norm_index w (py - y1)) as [c|] eqn:Hc; [|reflexivity].
  destruct (fits_int level) eqn:Hf; [|reflexivity].
  exfalso. destruct Hout as [H|[H|[H|[H|H]]]]; try discriminate.
  - rewrite norm_index_out in Hr by lia. discriminate.
  - rewrite norm_index_out in Hr by lia. discriminate.
  - rewrite norm_index_out in Hc by lia. discriminate.
  - rewrite norm_index_out in Hc by lia. discriminate.
Qed.

(** C5, the claim as it stands fails: the service reports the level
    [2 ^ 63] for the pixel [(0, 0)]; the coordinator posts once, the
    assignment to the cell overflows, the handler reports it, and the
    cell of the returned grid holds 0. *)
Lemma oversized_level_is_not_stored :
  answer huge initial_world 0 0 = Level (2 ^ 63) /\
  get_level_data_concurrent huge 1 (0, 0, 1, 1) initial_world
    = (Ret (zeros 1 1),
       {| stdout := [MsgProblemOnPixel 0 0 (2 ^ 63)];
          posts := [make_payload 0 0]; shown := [] |}) /\
  getitem (zeros 1 1) 0 0 = Some 0.
Proof. split; [reflexivity|]. split; reflexivity. Qed.

(** C5, amended.  When the service answers each pixel of a sector with a
    level, the coordinator returns a grid of the shape of the sector
    whose cell [(x - x1, y - y1)] holds the level reported for [(x, y)]
    whenever that level fits the signed 64-bit cell; the grid is the same
    for every order of completion of the requests, and the assembly of
    the results gives it for every permutation of them. *)
Theorem concurrent_grid_holds_fitting_levels (env : Env) (fuel : nat)
    (lvl : Z -> Z -> Z) (x1 y1 x2 y2 : Z) (w : World) :
  x1 <= x2 -> y1 <= y2 ->
  (forall px py, x1 <= px < x2 -> y1 <= py < y2 ->
     answer env w px py = Level (lvl px py)) ->
  exists (data : ndarray) (w' : World),
    get_level_data_concurrent env (S fuel) (x1, y1, x2, y2) w = (Ret data, w') /\
    shape data = (Z.to_nat (x2 - x1), Z.to_nat (y2 - y1)) /\
    (forall px py, x1 <= px < x2 -> y1 <= py < y2 ->
       fits_int (lvl px py) = true ->
       getitem data (Z.to_nat (px - x1)) (Z.to_nat (py - y1))
         = Some (lvl px py)) /\
    (forall env' : Env, service env' = service env ->
       fst (get_level_data_concurrent env' (S fuel) (x1, y1, x2, y2) w)
         = Ret data) /\
    (forall (results : list (Z * Z * Z)) (w'' : World),
       results ≡ₚ results_of lvl (x1, y1, x2, y2) ->
       fst (scatter x1 y1 results
              (zeros (Z.to_nat (x2 - x1)) (Z.to_nat (y2 - y1))) w'')
         = Ret data).
Proof.
  intros Hx Hy Hans.
  destruct (concurrent_spec lvl x1 y1 x2 y2 Hx Hy env fuel w Hans)
    as (data & ps & Hrun & _ & Hshape & _ & Hscatter & Hcells).
  exists data, (printed (posted w ps)
                  (problems (Z.to_nat (x2 - x1)) (Z.to_nat (y2 - y1)) x1 y1
                     (results_of lvl (x1, y1, x2, y2)))).
  split; [exact Hrun|]. split; [exact Hshape|]. split; [|split].
  - intros px py Hpx Hpy Hfits.
    rewrite (Hcells px py Hpx Hpy). now rewrite Hfits.
  - intros env' Hservice.
    assert (Hans' : forall px py, x1 <= px < x2 -> y1 <= py < y2 ->
              answer env' w px py = Level (lvl px py)).
    { intros px py Hpx Hpy. unfold answer. rewrite Hservice.
      now apply Hans. }
    destruct (concurrent_spec lvl x1 y1 x2 y2 Hx Hy env' fuel w Hans')
      as (data' & ps' & Hrun' & _ & _ & _ & Hscatter' & _).
    rewrite Hrun'. simpl.
    rewrite <- (Hscatter w), <- (Hscatter' w). reflexivity.
  - intros results w'' Hperm.
    rewrite (scatter_Permutation x1 y1 (results_of lvl (x1, y1, x2, y2)) results
               _ w w'').
    + apply Hscatter.
    + apply well_shaped_zeros.
    + apply NoDup_targets; assumption.
    + now symmetry.
Qed.

Lemma concurrent_grid_holds_fitting_levels_witness :
  exists (data : ndarray) (w' : World),
    get_level_data_concurrent tens 1 (0, 0, 2, 3) initial_world = (Ret data, w') /\
    getitem data 1 2 = Some 12.
Proof.
  destruct (concurrent_grid_holds_fitting_levels tens 0
              (fun px py => 10 * px + py) 0 0 2 3 initial_world)
    as (data & w' & Hrun & _ & Hcells & _).
  - lia.
  - lia.
  - intros px py _ _. reflexivity.
  - exists data, w'. split; [exact Hrun|].
    apply (Hcells 1 2); [lia|lia|reflexivity].
Defined.

(** C8, the claim as it stands fails, twice.  With origin [(1, 1)] and a
    2 by 2 grid, the result for [(0, 1)] has the row offset [-1], outside
    the grid: it is neither reported nor skipped, Python counts the row
    from the end and the level lands in row 1.  And the result for
    [(1, 1)] with the level [2 ^ 63] is inside the grid: it is not
    written, the assignment overflows and the handler reports it. *)
Lemma assembly_wraps_and_drops :
  scatter 1 1 [(0, 1, 5)] (zeros 2 2) initial_world
    = (Ret {| nrows := 2; ncols := 2; rows := [[0; 0]; [5; 0]] |},
       initial_world) /\
  scatter 1 1 [(1, 1, 2 ^ 63)] (zeros 2 2) initial_world
    = (Ret (zeros 2 2),
       {| stdout := [MsgProblemOnPixel 1 1 (2 ^ 63)]; posts := []; shown := [] |}).
Proof. split; reflexivity. Qed.

(** C8, amended.  The assembly never raises and keeps the shape of the
    grid.  A result whose offsets (coordinate minus origin) are inside
    the grid and whose level fits the signed 64-bit cell is written at
    its offsets.  A result with an offset [d] along an axis of length [n]
    such that [d < - n] or [n <= d], or with a level that does not fit,
    is reported and skipped.  A cell ends with the level of the last
    result written to it, or as it was.  (An offset [- n <= d < 0] is
    counted from the end of the axis, as [target] says.) *)
Theorem assembly_writes_or_reports (x1 y1 : Z) (results : list (Z * Z * Z))
    (data : ndarray) (w : World) :
  well_shaped data ->
  exists data' : ndarray,
    scatter x1 y1 results data w
      = (Ret data', printed w (problems (nrows data) (ncols data) x1 y1 results)) /\
    shape data' = shape data /\
    (forall r c,
       getitem data' r c =
         match written (nrows data) (ncols data) x1 y1 results r c with
         | Some level => Some level
         | None => getitem data r c
         end) /\
    (forall px py level,
       0 <= px - x1 < Z.of_nat (nrows data) ->
       0 <= py - y1 < Z.of_nat (ncols data) ->
       fits_int level = true ->
       target (nrows data) (ncols data) x1 y1 (px, py, level)
         = Some (Z.to_nat (px - x1), Z.to_nat (py - y1))) /\
    (forall px py level,
       px - x1 < - Z.of_nat (nrows data) \/ Z.of_nat (nrows data) <= px - x1 \/
       py - y1 < - Z.of_nat (ncols data) \/ Z.of_nat (ncols data) <= py - y1 \/
       fits_int level = false ->
       target (nrows data) (ncols data) x1 y1 (px, py, level) = None).
Proof.
  intros Hws.
  destruct (scatter_spec x1 y1 results data w Hws)
    as (data' & Hrun & Hshape & _ & Hcells).
  exists data'. split; [exact Hrun|]. split; [exact Hshape|].
  split; [exact Hcells|]. split.
  - intros px py level Hpx Hpy Hfits.
    rewrite target_inside by assumption. now rewrite Hfits.
  - intros px py level. apply target_outside.
Qed.

Lemma assembly_writes_or_reports_witness :
  exists data' : ndarray,
    scatter 1 1 [(0, 1, 5); (1, 1, 2 ^ 63); (3, 1, 4); (1, 2, 9)]
      (zeros 2 2) initial_world
      = (Ret data',
         printed initial_world
           [MsgProblemOnPixel 1 1 (2 ^ 63); MsgProblemOnPixel 3 1 4]) /\
    getitem data' 0 1 = Some 9 /\ getitem data' 1 0 = Some 5.
Proof.
  destruct (assembly_writes_or_reports 1 1
              [(0, 1, 5); (1, 1, 2 ^ 63); (3, 1, 4); (1, 2, 9)]
              (zeros 2 2) initial_world)
    as (data' & Hrun & _ & Hcells & _).
  - split; [reflexivity|]. repeat constructor.
  - exists data'. split; [exact Hrun|].
    split; rewrite Hcells; reflexivity.
Defined.

(** ** The sector driver: the loop over batches *)

Lemma slice_bound_inside (n : nat) (i : Z) :
  0 <= i <= Z.of_nat n -> slice_bound n i = Z.to_nat i.
Proof.
  intros Hi. unfold slice_bound.
  destruct (Z.ltb_spec i 0); [lia|]. f_equal. lia.
Qed.

(** A batch of the height of the grid and of the width of the slice is
    copied, and the grid keeps its shape. *)
Lemma setcols_Ret (data value : ndarray) (a b : Z) :
  well_shaped data ->
  0 <= a <= b -> b <= Z.of_nat (ncols data) ->
  nrows value = nrows data -> Z.of_nat (ncols value) = b - a ->
  exists data' : ndarray,
    setcols data a b value = Ret data' /\
    shape data' = shape data /\ well_shaped data'.
Proof.
  intros [Hlen Hrows] Hab Hb Hh Hw. unfold setcols.
  rewrite !slice_bound_inside by lia.
  replace (Z.to_nat b - Z.to_nat a)%nat with (ncols value) by lia.
  unfold broadcasts. rewrite Hh, !Nat.eqb_refl. simpl.
  eexists. split; [reflexivity|]. split; [reflexivity|].
  split; simpl.
  - now rewrite length_imap.
  - rewrite Forall_forall in Hrows. apply Forall_forall. intros row' Hin.
    apply list_elem_of_lookup in Hin as [i Hi].
    rewrite list_lookup_imap in Hi.
    destruct (rows data !! i) as [row|] eqn:Hrow; [|discriminate].
    simpl in Hi. inversion Hi; subst row'.
    assert (Hrowlen : length row = ncols data)
      by (apply Hrows; now apply list_elem_of_lookup_2 in Hrow).
    rewrite !length_app, length_take, length_map, length_seq, length_drop.
    lia.
Qed.

Lemma sector_batch_eq (x1 y1 x2 y2 k b : Z) :
  sector_batch (x1, y1, x2, y2) k b
    = (x1, y1 + b * k, x2, Z.min y2 (y1 + b * k + k)).
Proof. reflexivity. Qed.

Section Batches.
Variables (env : Env) (fuel : nat) (lvl : Z -> Z -> Z).
Variables (x1 y1 x2 y2 k : Z).
Hypothesis (Hx : x1 < x2) (Hk : 1 <= k).

Let sector : Sector := (x1, y1, x2, y2).
Let h := Z.to_nat (x2 - x1).
Let wd := Z.to_nat (y2 - y1).

(** One round of the loop: the posts of batch [b], then the copy of
    its grid into the columns of the batch. *)
Lemma run_batch_spec (b : Z) (data : ndarray) (w : World) :
  0 <= b -> y1 + b * k < y2 ->
  well_shaped data -> shape data = (h, wd) ->
  (forall px py, x1 <= px < x2 -> y1 + b * k <= py < y2 ->
     answer env w px py = Level (lvl px py)) ->
  exists (data' : ndarray) (w' : World) (ps : list Payload),
    run_batch env (S fuel) sector k b data w = (Ret data', w') /\
    shape data' = (h, wd) /\ well_shaped data' /\
    posts w' = posts w ++ ps /\
    ps ≡ₚ map payload_of (pixels_of (sector_batch sector k b)) /\
    Z.of_nat (length ps)
      = (x2 - x1) * (Z.min y2 (y1 + b * k + k) - (y1 + b * k)).
Proof.
  intros Hb Hlt Hws Hshape Hans.
  unfold run_batch, sector. rewrite sector_batch_eq.
  set (y1b := y1 + b * k). set (y2b := Z.min y2 (y1b + k)).
  assert (Hy : y1b < y2b <= y2) by (unfold y2b, y1b; lia).
  destruct (concurrent_spec lvl x1 y1b x2 y2b ltac:(lia) ltac:(lia) env fuel w)
    as (batch & ps & Hrun & Hps & Hbshape & Hbws & _ & _).
  { intros px py Hpx Hpy. apply Hans; unfold y1b in *; lia. }
  erewrite bind_Ret by exact Hrun.
  inversion Hshape as [[Hrows Hcols]]. inversion Hbshape as [[Hbrows Hbcols]].
  destruct (setcols_Ret data batch (y1b - y1) (y2b - y1) Hws)
    as (data' & Hset & Hshape' & Hws').
  - unfold y1b. nia.
  - rewrite Hcols. unfold wd. lia.
  - now rewrite Hbrows, Hrows.
  - rewrite Hbcols. lia.
  - eexists data', _, ps.
    unfold lift. rewrite Hset.
    split; [reflexivity|]. split; [congruence|]. split; [exact Hws'|].
    split; [reflexivity|]. split; [exact Hps|].
    rewrite Hps, length_map. apply length_pixels_of; lia.
Qed.

(** The rounds [j], [j + 1], ... of the loop. *)
Lemma batches_spec (m : nat) :
  forall (j : Z) (data : ndarray) (w : World),
  0 <= j -> (j + Z.of_nat m - 1) * k < y2 - y1 ->
  well_shaped data -> shape data = (h, wd) ->
  (forall px py, x1 <= px < x2 -> y1 + j * k <= py < y2 ->
     answer env w px py = Level (lvl px py)) ->
  exists (data' : ndarray) (w' : World) (segs : list (list Payload)),
    for_each (seqZ j (Z.of_nat m)) (run_batch env (S fuel) sector k) data w
      = (Ret data', w') /\
    shape data' = (h, wd) /\ well_shaped data' /\
    posts w' = posts w ++ concat segs /\
    Forall2 (fun seg b =>
               seg ≡ₚ map payload_of (pixels_of (sector_batch sector k b)) /\
               Z.of_nat (length seg)
                 = (x2 - x1) * (Z.min y2 (y1 + b * k + k) - (y1 + b * k)))
      segs (seqZ j (Z.of_nat m)).
Proof.
  induction m as [|m IH]; intros j data w Hj Hlast Hws Hshape Hans.
  - exists data, w, []. simpl. rewrite app_nil_r.
    split; [reflexivity|]. split; [exact Hshape|]. split; [exact Hws|].
    split; [reflexivity|constructor].
  - rewrite seqZ_cons by lia.
    replace (Z.pred (Z.of_nat (S m))) with (Z.of_nat m) by lia.
    cbn [for_each].
    destruct (run_batch_spec j data w Hj ltac:(nia) Hws Hshape Hans)
      as (data1 & w1 & ps & Hrun1 & Hshape1 & Hws1 & Hposts1 & Hps & Hlen).
    erewrite bind_Ret by exact Hrun1.
    destruct (IH (Z.succ j) data1 w1 ltac:(lia) ltac:(nia) Hws1 Hshape1)
      as (data' & w' & segs & Hrun & Hshape' & Hws' & Hposts & Hsegs).
    { intros px py Hpx Hpy.
      rewrite (answer_after env w w1 ps px py Hposts1).
      - apply Hans; [exact Hpx|nia].
      - rewrite Hps. change (map ?f ?l) with (f <$> l).
        intros Hin. apply list_elem_of_fmap in Hin as [[qx qy] [Heq Hq]].
        apply (payload_of_inj (px, py) (qx, qy)) in Heq. inversion Heq; subst.
        unfold sector in Hq. rewrite sector_batch_eq in Hq.
        apply elem_of_pixels_of in Hq. nia. }
    exists data', w', (ps :: segs).
    split; [exact Hrun|]. split; [exact Hshape'|]. split; [exact Hws'|].
    split.
    + rewrite Hposts, Hposts1. simpl. now rewrite app_assoc.
    + now constructor.
Qed.
End Batches.

(** The level of the answer to the next post for a pixel. *)
Lemma answer_reported (env : Env) (w : World) (px py : Z) :
  (exists level, answer env w px py = Level level) ->
  answer env w px py = Level (reported env w px py).
Proof. intros [level Ha]. unfold reported. now rewrite Ha. Qed.

(** The driver on a valid sector, with a key configured and a service
    that answers each pixel: the batches follow each other, each posts
    once for each of its pixels, and the grid has the shape of the
    sector. *)
Lemma driver_spec (env : Env) (fuel : nat) (x1 y1 x2 y2 : Z) (key : string)
    (w : World) :
  0 <= x1 < x2 -> x2 <= 700 -> 0 <= y1 < y2 -> y2 <= 700 ->
  env_headers env !! "authorization"%string = Some key -> key <> ""%string ->
  (forall px py, x1 <= px < x2 -> y1 <= py < y2 ->
     exists level, answer env w px py = Level level) ->
  exists (data : ndarray) (w' : World) (segs : list (list Payload)),
    get_level_data env (S fuel) (x1, y1, x2, y2) w = (Ret data, w') /\
    shape data = (Z.to_nat (x2 - x1), Z.to_nat (y2 - y1)) /\
    well_shaped data /\
    posts w' = posts w ++ concat segs /\
    Forall2 (fun seg b =>
               seg ≡ₚ map payload_of
                        (pixels_of (sector_batch (x1, y1, x2, y2)
                                      (max_conc_req / (x2 - x1)) b)) /\
               Z.of_nat (length seg) <= max_conc_req)
      segs (seqZ 0 (- ((- (y2 - y1)) / (max_conc_req / (x2 - x1))))).
Proof.
  intros Hx Hx2 Hy Hy2 Hkey Hne Hans.
  rewrite get_level_data_valid by assumption.
  erewrite bind_Ret by (eapply check_auth_present; eassumption).
  cbv iota. unfold bind at 1, print.
  pose proof (columns_per_batch_bounds (x2 - x1) ltac:(lia)) as [Hk Hkh].
  set (k := max_conc_req / (x2 - x1)) in *.
  pose proof (ceil_bounds (y2 - y1) k ltac:(lia)) as Hnb.
  set (nb := - ((- (y2 - y1)) / k)) in *.
  assert (Hnb0 : 0 <= nb) by nia.
  destruct (batches_spec env fuel (reported env w) x1 y1 x2 y2 k
              ltac:(lia) ltac:(lia) (Z.to_nat nb) 0
              (zeros (Z.to_nat (x2 - x1)) (Z.to_nat (y2 - y1)))
              (printed w [MsgSending ((x2 - x1) * (y2 - y1)) nb]))
    as (data & w' & segs & Hrun & Hshape & Hws & Hposts & Hsegs).
  - lia.
  - rewrite Z2Nat.id by lia. lia.
  - apply well_shaped_zeros.
  - reflexivity.
  - intros px py Hpx Hpy.
    change (answer env w px py = Level (reported env w px py)).
    apply answer_reported, Hans; lia.
  - rewrite Z2Nat.id in Hrun, Hsegs by lia.
    exists data, w', segs.
    split; [exact Hrun|]. split; [exact Hshape|]. split; [exact Hws|].
    split; [exact Hposts|].
    eapply Forall2_impl; [exact Hsegs|].
    intros seg b [Hperm Hlen]. split; [exact Hperm|].
    rewrite Hlen. nia.
Qed.

(** C2. The claim: for every valid sector the driver returns a grid of
    shape [(x2 - x1, y2 - y1)].  The module does not do so once a response
    fails: on the valid sector [(0, 0, 2, 3)], with a key configured and a
    service whose first response to each request is an error and whose
    second carries level 7, the driver returns no grid; the [NameError]
    for [time] of the first fetch ends the run. *)
Theorem driver_returns_no_grid_after_failure :
  is_valid (0, 0, 2, 3) initial_world = (Ret true, initial_world) /\
  check_auth (env_headers flaky_with_key) initial_world
    = (Ret true, initial_world) /\
  fst (get_level_data flaky_with_key 1 (0, 0, 2, 3) initial_world)
    = Raise (NameError "time").
Proof.
  split; [apply is_valid_true; lia|].
  split; [reflexivity|].
  rewrite get_level_data_valid by lia.
  vm_compute. reflexivity.
Qed.



(** C3, the claim as it stands fails: the batches are behind the gate
    of [check_auth].  On the valid sector [(0, 0, 2, 3)], with the headers
    of the module (an empty key), the claim counts [ceil(3 / 5000) = 1]
    batch of 6 requests; the driver prints the notice of [check_auth],
    issues no batch and returns the grid of zeros. *)
Lemma no_key_no_batch :
  py_floordiv max_conc_req (2 - 0) = Ret 5000 /\
  ceil_truediv (3 - 0) 5000 = Ret 1 /\
  is_valid (0, 0, 2, 3) initial_world = (Ret true, initial_world) /\
  get_level_data fails_once 1 (0, 0, 2, 3) initial_world
    = (Ret (zeros 2 3),
       {| stdout := [MsgAddAuthorization]; posts := []; shown := [] |}).
Proof.
  split; [reflexivity|]. split; [reflexivity|].
  split; [apply is_valid_true; lia|].
  rewrite get_level_data_valid by lia.
  vm_compute. reflexivity.
Qed.

(** C3, amended.  For a valid sector of height [h] and width [W], with a key
    configured and a service that answers each pixel, the driver computes
    [k = max_conc_req // h] columns per batch and runs [ceil(W / k)]
    batches one after the other: the posts of the run are those of batch
    0, then those of batch 1, and so on; batch [b] covers the columns from
    [y1 + b * k], [k] of them except that the last batch stops at [y2];
    and no batch posts more than [max_conc_req] times. *)
Theorem driver_issues_sequential_batches (env : Env) (fuel : nat)
    (x1 y1 x2 y2 : Z) (key : string) (w : World) :
  0 <= x1 < x2 -> x2 <= 700 -> 0 <= y1 < y2 -> y2 <= 700 ->
  env_headers env !! "authorization"%string = Some key -> key <> ""%string ->
  (forall px py, x1 <= px < x2 -> y1 <= py < y2 ->
     exists level, answer env w px py = Level level) ->
  exists (k num_batches : Z) (data : ndarray) (w' : World)
         (segs : list (list Payload)),
    py_floordiv max_conc_req (x2 - x1) = Ret k /\
    ceil_truediv (y2 - y1) k = Ret num_batches /\
    (num_batches - 1) * k < y2 - y1 <= num_batches * k /\
    get_level_data env (S fuel) (x1, y1, x2, y2) w = (Ret data, w') /\
    posts w' = posts w ++ concat segs /\
    Z.of_nat (length segs) = num_batches /\
    Forall2 (fun seg b =>
               seg ≡ₚ map payload_of
                        (pixels_of (sector_batch (x1, y1, x2, y2) k b)) /\
               Z.of_nat (length seg) <= max_conc_req)
      segs (seqZ 0 num_batches) /\
    (forall b, 0 <= b < num_batches ->
       sector_batch (x1, y1, x2, y2) k b
         = (x1, y1 + b * k, x2,
            if b =? num_batches - 1 then y2 else y1 + (b + 1) * k)).
Proof.
  intros Hx Hx2 Hy Hy2 Hkey Hne Hans.
  pose proof (columns_per_batch_bounds (x2 - x1) ltac:(lia)) as [Hk Hkh].
  pose proof (ceil_bounds (y2 - y1) (max_conc_req / (x2 - x1)) ltac:(lia)) as Hnb.
  destruct (driver_spec env fuel x1 y1 x2 y2 key w Hx Hx2 Hy Hy2 Hkey Hne Hans)
    as (data & w' & segs & Hrun & _ & _ & Hposts & Hsegs).
  exists (max_conc_req / (x2 - x1)),
         (- ((- (y2 - y1)) / (max_conc_req / (x2 - x1)))), data, w', segs.
  set (k := max_conc_req / (x2 - x1)) in *.
  set (nb := - ((- (y2 - y1)) / k)) in *.
  split; [apply py_floordiv_Ret; lia|].
  split; [apply ceil_truediv_Ret; lia|].
  split; [exact Hnb|]. split; [exact Hrun|]. split; [exact Hposts|].
  split; [|split; [exact Hsegs|]].
  - apply Forall2_length in Hsegs. rewrite Hsegs, length_seqZ. nia.
  - intros b Hb. rewrite sector_batch_eq. f_equal.
    destruct (Z.eqb_spec b (nb - 1)) as [->|Hlast]; nia.
Qed.

(** A sector of two batches: 700 rows leave 14 columns per batch, and
    15 columns make a full batch and a batch of one column. *)
Lemma driver_issues_sequential_batches_witness :
  exists (k num_batches : Z) (data : ndarray) (w' : World)
         (segs : list (list Payload)),
    k = 14 /\ num_batches = 2 /\
    get_level_data tens 1 (0, 0, 700, 15) initial_world = (Ret data, w') /\
    posts w' = posts initial_world ++ concat segs /\
    Z.of_nat (length segs) = num_batches /\
    sector_batch (0, 0, 700, 15) k 0 = (0, 0, 700, 14) /\
    sector_batch (0, 0, 700, 15) k 1 = (0, 14, 700, 15).
Proof.
  destruct (driver_issues_sequential_batches tens 0 0 0 700 15 "Bearer key"
              initial_world)
    as (k & nb & data & w' & segs & Hk & Hnb & _ & Hrun & Hposts & Hlen & _ & _).
  - lia.
  - lia.
  - lia.
  - lia.
  - reflexivity.
  - discriminate.
  - intros px py _ _. eexists. reflexivity.
  - assert (Hk14 : k = 14) by (cbv in Hk; congruence).
    rewrite Hk14 in Hnb.
    assert (Hnb2 : nb = 2) by (cbv in Hnb; congruence).
    exists k, nb, data, w', segs.
    split; [exact Hk14|]. split; [exact Hnb2|]. split; [exact Hrun|].
    split; [exact Hposts|]. split; [exact Hlen|].
    rewrite Hk14. split; reflexivity.
Defined.

(** ** The scenario of the specification *)

(** Sector [(0, 0, 2, 3)] against the service of level [10 * x + y]: six
    posts in one batch, completed out of order, and the grid
    [[0, 1, 2], [10, 11, 12]]. *)
Example scenario_two_by_three :
  get_level_data tens 1 (0, 0, 2, 3) initial_world
    = (Ret {| nrows := 2; ncols := 3; rows := [[0; 1; 2]; [10; 11; 12]] |},
       {| stdout := [MsgSending 6 1];
          posts := [make_payload 1 1; make_payload 1 2; make_payload 0 2;
                    make_payload 0 1; make_payload 0 0; make_payload 1 0];
          shown := [] |}).
Proof. vm_compute. reflexivity. Qed.

(** * Further properties *)

(** ** The fetcher, whatever the answer *)

(** X1. A fetch posts exactly once and prints nothing, whatever the
    service answers: a level is returned with the coordinates of the
    call, a failure ends in the [NameError] for [time].  The call never
    posts a second time. *)
Theorem fetch_posts_exactly_once (env : Env) (fuel : nat) (px py : Z) (w : World) :
  fetch_pixel_level env (S fuel) (px, py) w =
    (match answer env w px py with
     | Level level => Ret (px, py, level)
     | Failure _ => Raise (NameError "time")
     end,
     {| stdout := stdout w; posts := posts w ++ [make_payload px py];
        shown := shown w |}).
Proof.
  destruct (answer env w px py) as [level|e] eqn:Ha.
  - apply fetch_first_answer. exact Ha.
  - apply fetch_first_failure with (e := e). exact Ha.
Qed.

(** ** check_auth, in full *)

(** X2. [check_auth] returns [True] and prints nothing exactly when the
    headers hold a non-empty authorization key; otherwise it returns
    [False] after printing its notice.  It never posts. *)
Theorem check_auth_decides_on_key (hdrs : gmap string string) (w : World) :
  ((exists key, hdrs !! "authorization"%string = Some key /\ key <> ""%string) /\
   check_auth hdrs w = (Ret true, w)) \/
  (~ (exists key, hdrs !! "authorization"%string = Some key /\ key <> ""%string) /\
   check_auth hdrs w =
     (Ret false, {| stdout := stdout w ++ [MsgAddAuthorization];
                    posts := posts w; shown := shown w |})).
Proof.
  destruct (hdrs !! "authorization"%string) as [key|] eqn:Hkey.
  - destruct (decide (key = ""%string)) as [->|Hne].
    + right. split.
      * intros (key & Heq & Hne). congruence.
      * apply check_auth_missing. now right.
    + left. split; [now exists key|].
      now apply (check_auth_present hdrs key).
  - right. split.
    + intros (key & Heq & _). discriminate.
    + apply check_auth_missing. now left.
Qed.

(** ** The batch coordinator at the edges *)

Lemma index_pairs_empty (h w : Z) : h <= 0 \/ w <= 0 -> index_pairs h w = [].
Proof.
  intros [Hh|Hw]; unfold index_pairs.
  - now rewrite (seqZ_nil 0 h) by lia.
  - rewrite (seqZ_nil 0 w) by lia. simpl.
    induction (seqZ 0 h) as [|i l IH]; [reflexivity|exact IH].
Qed.

(** X3. A sector turned inside out ([x2 < x1] or [y2 < y1]) makes the
    coordinator raise [ValueError] at [np.zeros], before any post. *)
Theorem concurrent_rejects_negative_extent (env : Env) (fuel : nat)
    (x1 y1 x2 y2 : Z) (w : World) :
  x2 < x1 \/ y2 < y1 ->
  get_level_data_concurrent env fuel (x1, y1, x2, y2) w = (Raise ValueError, w).
Proof.
  intros Hneg. unfold get_level_data_concurrent, np_zeros.
  destruct (Z.ltb_spec (x2 - x1) 0); [reflexivity|].
  destruct (Z.ltb_spec (y2 - y1) 0); [reflexivity|lia].
Qed.

Lemma concurrent_rejects_negative_extent_witness :
  get_level_data_concurrent tens 1 (5, 0, 3, 4) initial_world
    = (Raise ValueError, initial_world).
Proof.
  apply (concurrent_rejects_negative_extent tens 1 5 0 3 4 initial_world).
  left. lia.
Defined.

(** X4. On an empty sector ([x1 = x2] or [y1 = y2], the other extent not
    negative) the coordinator returns the empty grid of the sector's
    shape at once: no post, nothing printed. *)
Theorem concurrent_empty_sector (env : Env) (fuel : nat)
    (x1 y1 x2 y2 : Z) (w : World) :
  x1 <= x2 -> y1 <= y2 -> x1 = x2 \/ y1 = y2 ->
  get_level_data_concurrent env fuel (x1, y1, x2, y2) w
    = (Ret (zeros (Z.to_nat (x2 - x1)) (Z.to_nat (y2 - y1))), w).
Proof.
  intros Hx Hy Hempty. unfold get_level_data_concurrent.
  rewrite np_zeros_Ret by lia. rewrite bind_lift_Ret.
  rewrite np_ndindex_Ret by lia. rewrite bind_lift_Ret.
  rewrite index_pairs_empty by lia. reflexivity.
Qed.

Lemma concurrent_empty_sector_witness :
  get_level_data_concurrent tens 1 (2, 0, 2, 4) initial_world
    = (Ret (zeros (Z.to_nat (2 - 2)) (Z.to_nat (4 - 0))), initial_world).
Proof.
  apply (concurrent_empty_sector tens 1 2 0 2 4 initial_world); lia.
Defined.

(** X5. With an answer for each pixel, the coordinator posts exactly
    once for each pixel of the sector, [(x2 - x1) * (y2 - y1)] posts in
    all: the posts it adds are a permutation of the payloads of the
    pixels, in the order the event loop completed them. *)
Theorem concurrent_posts_once_per_pixel (env : Env) (fuel : nat)
    (x1 y1 x2 y2 : Z) (w : World) :
  x1 <= x2 -> y1 <= y2 ->
  (forall px py, x1 <= px < x2 -> y1 <= py < y2 ->
     exists level, answer env w px py = Level level) ->
  exists (data : ndarray) (w' : World) (ps : list Payload),
    get_level_data_concurrent env (S fuel) (x1, y1, x2, y2) w = (Ret data, w') /\
    posts w' = posts w ++ ps /\
    ps ≡ₚ map payload_of (pixels_of (x1, y1, x2, y2)) /\
    Z.of_nat (length ps) = (x2 - x1) * (y2 - y1) /\
    shown w' = shown w.
Proof.
  intros Hx Hy Hans.
  destruct (concurrent_spec (reported env w) x1 y1 x2 y2 Hx Hy env fuel w)
    as (data & ps & Hrun & Hps & _).
  { intros px py Hpx Hpy. now apply answer_reported, Hans. }
  eexists data, _, ps. split; [exact Hrun|].
  split; [reflexivity|]. split; [exact Hps|]. split; [|reflexivity].
  rewrite Hps, length_map. now apply length_pixels_of.
Qed.

Lemma concurrent_posts_once_per_pixel_witness :
  exists (data : ndarray) (w' : World) (ps : list Payload),
    get_level_data_concurrent tens 1 (0, 0, 2, 3) initial_world = (Ret data, w') /\
    posts w' = posts initial_world ++ ps /\
    Z.of_nat (length ps) = (2 - 0) * (3 - 0).
Proof.
  destruct (concurrent_posts_once_per_pixel tens 0 0 0 2 3 initial_world)
    as (data & w' & ps & Hrun & Hposts & _ & Hlen & _).
  - lia.
  - lia.
  - intros px py _ _. eexists. reflexivity.
  - exists data, w', ps. split; [exact Hrun|]. split; [exact Hposts|exact Hlen].
Defined.

(** ** The driver at the edges *)

(** X6. A sector with a negative [x2] or [y2] is not reported as
    invalid: [np.ndindex] raises [ValueError] inside [is_valid], and both
    the driver and [plot_level_map] end with that exception, nothing
    printed, posted or shown. *)
Theorem negative_corner_raises (env : Env) (fuel : nat)
    (x1 y1 x2 y2 : Z) (w : World) :
  x2 < 0 \/ y2 < 0 ->
  is_valid (x1, y1, x2, y2) w = (Raise ValueError, w) /\
  get_level_data env fuel (x1, y1, x2, y2) w = (Raise ValueError, w) /\
  plot_level_map env fuel (x1, y1, x2, y2) w = (Raise ValueError, w).
Proof.
  intros Hneg.
  assert (Hv : is_valid (x1, y1, x2, y2) w = (Raise ValueError, w))
    by now apply is_valid_negative.
  assert (Hd : get_level_data env fuel (x1, y1, x2, y2) w = (Raise ValueError, w)).
  { unfold get_level_data. now erewrite bind_Raise by exact Hv. }
  split; [exact Hv|]. split; [exact Hd|].
  unfold plot_level_map. now erewrite bind_Raise by exact Hd.
Qed.

Lemma negative_corner_raises_witness :
  is_valid (0, 0, -1, 3) initial_world = (Raise ValueError, initial_world) /\
  get_level_data tens 1 (0, 0, -1, 3) initial_world
    = (Raise ValueError, initial_world) /\
  plot_level_map tens 1 (0, 0, -1, 3) initial_world
    = (Raise ValueError, initial_world).
Proof.
  apply (negative_corner_raises tens 1 0 0 (-1) 3 initial_world). left. lia.
Defined.

(** ** The renderer and the whole program *)

Lemma foldl_max_spec (vs : list Z) :
  forall v : Z,
  foldl Z.max v vs ∈ v :: vs /\
  forall u, u ∈ v :: vs -> u <= foldl Z.max v vs.
Proof.
  induction vs as [|v' vs IH]; intros v.
  - simpl. split; [now left|].
    intros u Hu. apply list_elem_of_singleton in Hu. lia.
  - simpl. destruct (IH (Z.max v v')) as [Hin Hge]. split.
    + apply elem_of_cons in Hin as [Heq|Hin].
      * rewrite Heq. destruct (Z.max_spec v v') as [[_ ->]|[_ ->]].
        -- right. now left.
        -- now left.
      * right. now right.
    + intros u Hu.
      assert (Hmax : Z.max v v' <= foldl Z.max (Z.max v v') vs)
        by (apply Hge; now left).
      apply elem_of_cons in Hu as [->|Hu]; [lia|].
      apply elem_of_cons in Hu as [->|Hu]; [lia|].
      apply Hge. now right.
Qed.

(** [np.amax] returns a cell of the array that no cell exceeds. *)
Lemma np_amax_spec (data : ndarray) (m : Z) :
  np_amax data = Ret m ->
  m ∈ concat (rows data) /\ forall u, u ∈ concat (rows data) -> u <= m.
Proof.
  unfold np_amax. destruct (concat (rows data)) as [|v vs]; [discriminate|].
  intros H. inversion H; subst. apply foldl_max_spec.
Qed.

Lemma elem_of_concat {A : Type} (ls : list (list A)) (a : A) :
  a ∈ concat ls <-> exists l, a ∈ l /\ l ∈ ls.
Proof.
  rewrite list_elem_of_In, in_concat. split.
  - intros (l & Hl & Ha). exists l. now rewrite !list_elem_of_In.
  - intros (l & Ha & Hl). exists l. now rewrite <- !list_elem_of_In.
Qed.

Lemma np_amax_zeros (h w : nat) :
  (0 < h)%nat -> (0 < w)%nat -> np_amax (zeros h w) = Ret 0.
Proof.
  intros Hh Hw.
  assert (Hcells : forall u, u ∈ concat (rows (zeros h w)) -> u = 0).
  { intros u Hu. apply elem_of_concat in Hu as (row & Hu & Hrow).
    apply elem_of_replicate_inv in Hrow. subst row.
    now apply elem_of_replicate_inv in Hu. }
  destruct (np_amax (zeros h w)) as [m| |] eqn:Hm.
  - f_equal. apply Hcells. now apply np_amax_spec.
  - exfalso. unfold np_amax in Hm.
    destruct h as [|h]; [lia|]. destruct w as [|w]; [lia|]. discriminate.
  - exfalso. unfold np_amax in Hm.
    destruct (concat (rows (zeros h w))); discriminate.
Qed.

(** X7. The renderer shows a figure exactly when some cell of the grid
    is positive, and the maximum in its title is a cell that no cell
    exceeds; on a grid without a positive cell it shows nothing; on a
    grid without cells [np.amax] raises [ValueError]. *)
Theorem plot_shows_iff_some_cell_positive (data : ndarray) (x1 y1 x2 y2 : Z)
    (w : World) :
  (concat (rows data) = [] ->
     plot_level_map_from_data data (x1, y1, x2, y2) w = (Raise ValueError, w)) /\
  (concat (rows data) <> [] ->
   (forall v, v ∈ concat (rows data) -> v <= 0) ->
     plot_level_map_from_data data (x1, y1, x2, y2) w = (Ret tt, w)) /\
  (forall v, v ∈ concat (rows data) -> 0 < v ->
     exists max_level,
       max_level ∈ concat (rows data) /\
       (forall u, u ∈ concat (rows data) -> u <= max_level) /\
       plot_level_map_from_data data (x1, y1, x2, y2) w =
         (Ret tt,
          {| stdout := stdout w; posts := posts w;
             shown := shown w ++
               [{| image := data; extent := [y1; y2; x2; x1];
                   log_norm := true; colorbar := true;
                   title_sector := (x1, y1, x2, y2);
                   title_max := max_level |}] |})).
Proof.
  unfold plot_level_map_from_data. split; [|split].
  - intros Hempty. unfold np_amax. now rewrite Hempty.
  - intros Hne Hle.
    destruct (np_amax data) as [m| |] eqn:Hm.
    + rewrite bind_lift_Ret. apply np_amax_spec in Hm as [Hin _].
      specialize (Hle m Hin). destruct (Z.ltb_spec 0 m); [lia|reflexivity].
    + unfold np_amax in Hm. destruct (concat (rows data)); [congruence|discriminate].
    + unfold np_amax in Hm. destruct (concat (rows data)); discriminate.
  - intros v Hv Hpos.
    destruct (np_amax data) as [m| |] eqn:Hm.
    + destruct (np_amax_spec data m Hm) as [Hin Hge].
      exists m. split; [exact Hin|]. split; [exact Hge|].
      rewrite bind_lift_Ret. specialize (Hge v Hv).
      destruct (Z.ltb_spec 0 m); [reflexivity|lia].
    + unfold np_amax in Hm. destruct (concat (rows data)) as [|u us].
      * now apply elem_of_nil in Hv.
      * discriminate.
    + unfold np_amax in Hm. destruct (concat (rows data)); discriminate.
Qed.

(** X8. Without a usable authorization key, [plot_level_map] on a valid
    sector prints the notice of [check_auth] and stops there: the grid of
    zeros has maximum 0, so nothing is posted and nothing is shown. *)
Theorem plot_level_map_without_key (env : Env) (fuel : nat)
    (x1 y1 x2 y2 : Z) (w : World) :
  0 <= x1 < x2 -> x2 <= 700 -> 0 <= y1 < y2 -> y2 <= 700 ->
  env_headers env !! "authorization"%string = None \/
  env_headers env !! "authorization"%string = Some ""%string ->
  plot_level_map env fuel (x1, y1, x2, y2) w =
    (Ret tt, {| stdout := stdout w ++ [MsgAddAuthorization];
                posts := posts w; shown := shown w |}).
Proof.
  intros Hx Hx2 Hy Hy2 Hauth. unfold plot_level_map.
  assert (Hdata : get_level_data env fuel (x1, y1, x2, y2) w =
            (Ret (zeros (Z.to_nat (x2 - x1)) (Z.to_nat (y2 - y1))),
             {| stdout := stdout w ++ [MsgAddAuthorization];
                posts := posts w; shown := shown w |})).
  { rewrite get_level_data_valid by assumption.
    erewrite bind_Ret by (apply check_auth_missing; exact Hauth).
    reflexivity. }
  erewrite bind_Ret by exact Hdata.
  unfold plot_level_map_from_data.
  rewrite np_amax_zeros by lia. reflexivity.
Qed.

(** The module as it is distributed and run: the sector of its last two
    lines, the headers with the empty key. *)
Lemma plot_level_map_without_key_witness :
  plot_level_map fails_once 1 (217, 231, 259, 273) initial_world =
    (Ret tt, {| stdout := stdout initial_world ++ [MsgAddAuthorization];
                posts := posts initial_world; shown := shown initial_world |}).
Proof.
  apply (plot_level_map_without_key fails_once 1 217 231 259 273 initial_world);
    try lia.
  right. reflexivity.
Defined.

(** X9. On a sector that [is_valid] rejects (with [x2] and [y2] not
    negative), [plot_level_map] prints the notice of the invalid sector
    and nothing else happens: the 1 by 1 grid of zeros is not shown and
    nothing is posted. *)
Theorem plot_level_map_invalid_sector (env : Env) (fuel : nat)
    (x1 y1 x2 y2 : Z) (w : World) :
  0 <= x2 -> 0 <= y2 ->
  ~ (0 <= x1 < x2 /\ x2 <= 700 /\ 0 <= y1 < y2 /\ y2 <= 700) ->
  plot_level_map env fuel (x1, y1, x2, y2) w =
    (Ret tt, {| stdout := stdout w ++ [MsgInvalidSector (x1, y1, x2, y2)];
                posts := posts w; shown := shown w |}).
Proof.
  intros Hx2 Hy2 Hnot. unfold plot_level_map.
  erewrite bind_Ret by (apply get_level_data_invalid; assumption).
  reflexivity.
Qed.

Lemma plot_level_map_invalid_sector_witness :
  plot_level_map tens 1 (0, 0, 701, 10) initial_world =
    (Ret tt, {| stdout := stdout initial_world ++ [MsgInvalidSector (0, 0, 701, 10)];
                posts := posts initial_world; shown := shown initial_world |}).
Proof.
  apply (plot_level_map_invalid_sector tens 1 0 0 701 10 initial_world); lia.
Defined.

(** ** One failed answer ends the whole run *)

Section Failure.
Variables (env : Env) (fuel : nat).

(** The event loop with a pixel whose answer is a failure among the
    waiting ones: some fetch raises before the loop is through. *)
Lemma complete_raises (n : nat) :
  forall (waiting : list (nat * (Z * Z))) (slots : list (option (Z * Z * Z)))
         (w : World),
  length waiting = n ->
  NoDup (waiting.*2) ->
  (exists kp e, kp ∈ waiting /\
     answer env w (fst (snd kp)) (snd (snd kp)) = Failure e) ->
  exists ps : list Payload,
    complete env n
      ((fun kp : nat * (Z * Z) =>
          (fst kp, fetch_pixel_level env (S fuel) (snd kp))) <$> waiting)
      slots w
    = (Raise (NameError "time"), posted w ps).
Proof.
  induction n as [|n IH]; intros waiting slots w Hlen Hnd (kp & e & Hin & Hfail).
  - destruct waiting; [|discriminate]. now apply elem_of_nil in Hin.
  - cbn [complete]. rewrite length_fmap, Hlen.
    set (i := Nat.modulo (completes env (posts w)) (S n)).
    assert (Hi : (i < length waiting)%nat)
      by (rewrite Hlen; apply Nat.mod_upper_bound; lia).
    destruct (lookup_lt_is_Some_2 _ _ Hi) as [[k0 p0] Hkp].
    rewrite list_lookup_fmap, Hkp. cbn [fmap option_fmap option_map fst snd].
    assert (Hperm : waiting ≡ₚ (k0, p0) :: delete i waiting)
      by now apply delete_Permutation.
    destruct (answer env w (fst p0) (snd p0)) as [level|e0] eqn:Ha.
    + erewrite bind_Ret by (apply fetch_answered; exact Ha).
      rewrite Hperm in Hnd. simpl in Hnd.
      apply NoDup_cons in Hnd as [Hp0 Hnd].
      rewrite <- list_fmap_delete.
      assert (Hin' : kp ∈ delete i waiting).
      { rewrite Hperm in Hin. apply elem_of_cons in Hin as [->|Hin]; [|exact Hin].
        simpl in Hfail. congruence. }
      destruct (IH (delete i waiting)
                  (<[k0 := Some (fst p0, snd p0, level)]> slots)
                  (posted w [payload_of p0])) as [ps Hrun].
      * rewrite length_delete by (exists (k0, p0); exact Hkp). lia.
      * exact Hnd.
      * exists kp, e. split; [exact Hin'|].
        rewrite (answer_after env w _ [payload_of p0]); [exact Hfail|reflexivity|].
        intros Hsame. apply list_elem_of_singleton in Hsame.
        apply Hp0. apply list_elem_of_fmap. exists kp. split; [|exact Hin'].
        destruct kp as [k [qx qy]]. simpl in *.
        now apply (payload_of_inj (qx, qy) p0) in Hsame.
      * exists (payload_of p0 :: ps). rewrite posted_app in Hrun. exact Hrun.
    + exists [payload_of p0].
      erewrite bind_Raise; [reflexivity|].
      destruct p0 as [px py]. now apply fetch_first_failure with (e := e0).
Qed.

(** The coordinator on a sector with a pixel whose answer is a
    failure. *)
Lemma concurrent_raises (x1 y1 x2 y2 px py : Z) (e : exn) (w : World) :
  x1 <= x2 -> y1 <= y2 ->
  x1 <= px < x2 -> y1 <= py < y2 ->
  answer env w px py = Failure e ->
  exists ps : list Payload,
    get_level_data_concurrent env (S fuel) (x1, y1, x2, y2) w
      = (Raise (NameError "time"), posted w ps).
Proof.
  intros Hx Hy Hpx Hpy Hfail. unfold get_level_data_concurrent.
  rewrite np_zeros_Ret by lia. rewrite bind_lift_Ret.
  rewrite np_ndindex_Ret by lia. rewrite bind_lift_Ret.
  change (sector_pixels x1 y1 (index_pairs (x2 - x1) (y2 - y1)))
    with (pixels_of (x1, y1, x2, y2)).
  set (pixels := pixels_of (x1, y1, x2, y2)).
  assert (Htasks :
    imap pair (map (fun pixel => fetch_pixel_level env (S fuel) pixel) pixels)
    = (fun kp : nat * (Z * Z) =>
         (fst kp, fetch_pixel_level env (S fuel) (snd kp))) <$> imap pair pixels).
  { change (map ?f ?l) with (f <$> l).
    rewrite imap_fmap, fmap_imap. now apply imap_ext. }
  assert (Hsnd : (imap pair pixels).*2 = pixels).
  { rewrite fmap_imap. unfold compose. simpl.
    apply list_eq. intros k. rewrite list_lookup_imap.
    now destruct (pixels !! k). }
  destruct (complete_raises (length pixels) (imap pair pixels)
              (replicate (length pixels) None) w) as [ps Hrun].
  - apply length_imap.
  - rewrite Hsnd. apply NoDup_pixels_of.
  - assert (Hin : (px, py) ∈ pixels) by (apply elem_of_pixels_of; lia).
    apply list_elem_of_lookup in Hin as [k Hk].
    exists (k, (px, py)), e. split; [|exact Hfail].
    apply list_elem_of_lookup. exists k. now rewrite list_lookup_imap, Hk.
  - exists ps. unfold gather. rewrite Htasks, length_map.
    erewrite bind_Raise; [reflexivity|].
    erewrite bind_Raise; [reflexivity|exact Hrun].
Qed.
End Failure.

(** X10. If the service answers even one pixel of the sector with a
    failure, the coordinator returns no grid: whatever the other answers
    and the order of completion, the run ends in the [NameError] for
    [time] raised by a fetch, with nothing printed. *)
Theorem concurrent_fails_on_one_failure (env : Env) (fuel : nat)
    (x1 y1 x2 y2 px py : Z) (e : exn) (w : World) :
  x1 <= x2 -> y1 <= y2 ->
  x1 <= px < x2 -> y1 <= py < y2 ->
  answer env w px py = Failure e ->
  exists ps : list Payload,
    get_level_data_concurrent env (S fuel) (x1, y1, x2, y2) w
      = (Raise (NameError "time"),
         {| stdout := stdout w; posts := posts w ++ ps; shown := shown w |}).
Proof.
  intros Hx Hy Hpx Hpy Hfail.
  destruct (concurrent_raises env fuel x1 y1 x2 y2 px py e w Hx Hy Hpx Hpy Hfail)
    as [ps Hrun].
  now exists ps.
Qed.

Lemma concurrent_fails_on_one_failure_witness :
  exists ps : list Payload,
    get_level_data_concurrent fails_once 1 (0, 0, 2, 3) initial_world
      = (Raise (NameError "time"),
         {| stdout := stdout initial_world; posts := posts initial_world ++ ps;
            shown := shown initial_world |}).
Proof.
  apply (concurrent_fails_on_one_failure fails_once 0 0 0 2 3 1 2
           (ClientError "reset") initial_world); try lia.
  reflexivity.
Defined.

(** ** The cells of the driver's grid *)

(** Case analysis on the comparisons of a goal. *)
Ltac case_bounds :=
  repeat match goal with
         | |- context [Z.leb ?a ?b] => destruct (Z.leb_spec a b)
         | |- context [Z.ltb ?a ?b] => destruct (Z.ltb_spec a b)
         end.

Lemma getitem_in_range (data : ndarray) (r c : nat) :
  well_shaped data -> (r < nrows data)%nat -> (c < ncols data)%nat ->
  exists v, getitem data r c = Some v.
Proof.
  intros [Hlen Hrows] Hr Hc. unfold getitem.
  destruct (lookup_lt_is_Some_2 (rows data) r ltac:(lia)) as [row Hrow].
  rewrite Hrow. simpl. apply lookup_lt_is_Some_2.
  rewrite Forall_forall in Hrows.
  rewrite (Hrows row) by (now apply list_elem_of_lookup_2 in Hrow). exact Hc.
Qed.

Lemma getitem_out_of_range (data : ndarray) (r c : nat) :
  well_shaped data -> (nrows data <= r)%nat \/ (ncols data <= c)%nat ->
  getitem data r c = None.
Proof.
  intros Hws Hout.
  destruct (getitem data r c) as [v|] eqn:Hget; [|reflexivity].
  apply getitem_Some_lt in Hget; [lia|exact Hws].
Qed.

Lemma broadcast_get_same_shape (value : ndarray) (h c : nat) (i j : nat) (v : Z) :
  nrows value = h -> ncols value = c -> (i < h)%nat -> (j < c)%nat ->
  getitem value i j = Some v -> broadcast_get value i j = v.
Proof.
  intros Hh Hc Hi Hj Hget. unfold broadcast_get.
  replace (if (nrows value =? 1)%nat then 0%nat else i) with i
    by (destruct (Nat.eqb_spec (nrows value) 1); lia).
  replace (if (ncols value =? 1)%nat then 0%nat else j) with j
    by (destruct (Nat.eqb_spec (ncols value) 1); lia).
  now rewrite Hget.
Qed.

(** The cells after [data[:, a:b] = value]: those of [value] in the
    columns of the slice, those of [data] elsewhere. *)
Lemma setcols_cells (data value data' : ndarray) (a b : Z) :
  well_shaped data -> well_shaped value ->
  0 <= a <= b -> b <= Z.of_nat (ncols data) ->
  nrows value = nrows data -> Z.of_nat (ncols value) = b - a ->
  setcols data a b value = Ret data' ->
  forall r c, (r < nrows data)%nat -> (c < ncols data)%nat ->
    getitem data' r c =
      if (a <=? Z.of_nat c) && (Z.of_nat c <? b)
      then getitem value r (c - Z.to_nat a)
      else getitem data r c.
Proof.
  intros Hws Hwsv Hab Hb Hh Hw Hset r c Hr Hc.
  pose proof Hws as [Hlen Hrows]. rewrite Forall_forall in Hrows.
  unfold setcols in Hset.
  rewrite !slice_bound_inside in Hset by lia.
  replace (Z.to_nat b - Z.to_nat a)%nat with (ncols value) in Hset by lia.
  unfold broadcasts in Hset. rewrite Hh, !Nat.eqb_refl in Hset. simpl in Hset.
  inversion Hset; subst data'. clear Hset.
  unfold getitem at 1. simpl. rewrite list_lookup_imap.
  destruct (lookup_lt_is_Some_2 (rows data) r ltac:(lia)) as [row Hrow].
  rewrite Hrow. simpl.
  assert (Hrowlen : length row = ncols data)
    by (apply Hrows; now apply list_elem_of_lookup_2 in Hrow).
  set (lo := Z.to_nat a). set (cc := ncols value).
  destruct (Z.leb_spec a (Z.of_nat c)) as [Hge|Hlt]; simpl.
  - destruct (Z.ltb_spec (Z.of_nat c) b) as [Hin|Hout].
    + (* inside the slice *)
      rewrite lookup_app_r by (rewrite length_take; lia).
      rewrite length_take.
      replace (c - Nat.min lo (length row))%nat with (c - lo)%nat by lia.
      rewrite lookup_app_l by (rewrite length_map, length_seq; lia).
      change (map ?f ?l) with (f <$> l).
      rewrite list_lookup_fmap, lookup_seq_lt by lia. simpl.
      destruct (getitem_in_range value r (c - lo) Hwsv ltac:(lia) ltac:(lia))
        as [v Hv].
      rewrite Hv. f_equal.
      apply (broadcast_get_same_shape value (nrows data) cc); try lia.
      exact Hv.
    + (* right of the slice *)
      rewrite lookup_app_r by (rewrite length_take; lia).
      rewrite length_take.
      rewrite lookup_app_r by (rewrite length_map, length_seq; lia).
      rewrite length_map, length_seq, lookup_drop.
      unfold getitem. rewrite Hrow. simpl. f_equal. lia.
  - (* left of the slice *)
    rewrite lookup_app_l by (rewrite length_take; lia).
    rewrite lookup_take_lt by lia.
    unfold getitem. now rewrite Hrow.
Qed.

Section Cells.
Variables (env : Env) (fuel : nat) (lvl : Z -> Z -> Z).
Variables (x1 y1 x2 y2 k : Z).
Hypothesis (Hx : x1 < x2) (Hk : 1 <= k).

(** One round of the loop when the pixels of its batch are answered:
    the cells of the batch take the levels, the others stay. *)
Lemma run_batch_cells (b : Z) (data : ndarray) (w : World) :
  0 <= b -> y1 + b * k < y2 ->
  well_shaped data ->
  shape data = (Z.to_nat (x2 - x1), Z.to_nat (y2 - y1)) ->
  (forall px py, x1 <= px < x2 ->
     y1 + b * k <= py < Z.min y2 (y1 + b * k + k) ->
     answer env w px py = Level (lvl px py)) ->
  exists (data' : ndarray) (w' : World) (ps : list Payload),
    run_batch env (S fuel) (x1, y1, x2, y2) k b data w = (Ret data', w') /\
    shape data' = (Z.to_nat (x2 - x1), Z.to_nat (y2 - y1)) /\
    well_shaped data' /\
    posts w' = posts w ++ ps /\
    ps ≡ₚ map payload_of (pixels_of (sector_batch (x1, y1, x2, y2) k b)) /\
    forall px py, x1 <= px < x2 -> y1 <= py < y2 ->
      getitem data' (Z.to_nat (px - x1)) (Z.to_nat (py - y1)) =
        if (y1 + b * k <=? py) && (py <? Z.min y2 (y1 + b * k + k))
        then Some (if fits_int (lvl px py) then lvl px py else 0)
        else getitem data (Z.to_nat (px - x1)) (Z.to_nat (py - y1)).
Proof.
  intros Hb Hlt Hws Hshape Hans.
  unfold run_batch. rewrite sector_batch_eq.
  set (y1b := y1 + b * k) in *. set (y2b := Z.min y2 (y1b + k)) in *.
  assert (Hy : y1b < y2b <= y2) by (unfold y2b, y1b; lia).
  assert (Hy1b : y1 <= y1b) by (unfold y1b; nia).
  destruct (concurrent_spec lvl x1 y1b x2 y2b ltac:(lia) ltac:(lia) env fuel w)
    as (batch & ps & Hrun & Hps & Hbshape & Hbws & _ & Hbcells).
  { intros px py Hpx Hpy. apply Hans; lia. }
  erewrite bind_Ret by exact Hrun.
  inversion Hshape as [[Hrows Hcols]]. inversion Hbshape as [[Hbrows Hbcols]].
  destruct (setcols_Ret data batch (y1b - y1) (y2b - y1) Hws)
    as (data' & Hset & Hshape' & Hws'); try lia.
  eexists data', _, ps. unfold lift. rewrite Hset.
  split; [reflexivity|]. split; [congruence|]. split; [exact Hws'|].
  split; [reflexivity|]. split; [exact Hps|].
  intros px py Hpx Hpy.
  rewrite (setcols_cells data batch data' (y1b - y1) (y2b - y1)); try lia;
    try assumption.
  rewrite Z2Nat.id by lia.
  destruct (Z.leb_spec y1b py) as [Hge|Hless];
    destruct (Z.leb_spec (y1b - y1) (py - y1)); try lia; simpl.
  - destruct (Z.ltb_spec py y2b) as [Hin|Hout];
      destruct (Z.ltb_spec (py - y1) (y2b - y1)); try lia.
    + replace (Z.to_nat (py - y1) - Z.to_nat (y1b - y1))%nat
        with (Z.to_nat (py - y1b)) by lia.
      apply Hbcells; lia.
    + reflexivity.
  - reflexivity.
Qed.

(** The rounds [j], [j + 1], ... of the loop, when the pixels from the
    columns of round [j] on are answered. *)
Lemma batches_cells (m : nat) :
  forall (j : Z) (data : ndarray) (w : World),
  0 <= j -> (j + Z.of_nat m - 1) * k < y2 - y1 ->
  well_shaped data ->
  shape data = (Z.to_nat (x2 - x1), Z.to_nat (y2 - y1)) ->
  (forall px py, x1 <= px < x2 -> y1 + j * k <= py < y2 ->
     answer env w px py = Level (lvl px py)) ->
  exists (data' : ndarray) (w' : World),
    for_each (seqZ j (Z.of_nat m)) (run_batch env (S fuel) (x1, y1, x2, y2) k)
      data w = (Ret data', w') /\
    shape data' = (Z.to_nat (x2 - x1), Z.to_nat (y2 - y1)) /\
    well_shaped data' /\
    forall px py, x1 <= px < x2 -> y1 <= py < y2 ->
      getitem data' (Z.to_nat (px - x1)) (Z.to_nat (py - y1)) =
        if (y1 + j * k <=? py) && (py <? y1 + (j + Z.of_nat m) * k)
        then Some (if fits_int (lvl px py) then lvl px py else 0)
        else getitem data (Z.to_nat (px - x1)) (Z.to_nat (py - y1)).
Proof.
  induction m as [|m IH]; intros j data w Hj Hlast Hws Hshape Hans.
  - exists data, w. simpl.
    split; [reflexivity|]. split; [exact Hshape|]. split; [exact Hws|].
    intros px py Hpx Hpy.
    case_bounds; simpl; try reflexivity; lia.
  - rewrite seqZ_cons by lia.
    replace (Z.pred (Z.of_nat (S m))) with (Z.of_nat m) by lia.
    cbn [for_each].
    destruct (run_batch_cells j data w Hj ltac:(nia) Hws Hshape)
      as (data1 & w1 & ps & Hrun1 & Hshape1 & Hws1 & Hposts1 & Hps & Hcells1).
    { intros px py Hpx Hpy. apply Hans; lia. }
    erewrite bind_Ret by exact Hrun1.
    destruct (IH (Z.succ j) data1 w1 ltac:(lia) ltac:(nia) Hws1 Hshape1)
      as (data' & w' & Hrun & Hshape' & Hws' & Hcells).
    { intros px py Hpx Hpy.
      rewrite (answer_after env w w1 ps px py Hposts1).
      - apply Hans; [exact Hpx|nia].
      - rewrite Hps. change (map ?f ?l) with (f <$> l).
        intros Hin. apply list_elem_of_fmap in Hin as [[qx qy] [Heq Hq]].
        apply (payload_of_inj (px, py) (qx, qy)) in Heq. inversion Heq; subst.
        rewrite sector_batch_eq in Hq.
        apply elem_of_pixels_of in Hq. nia. }
    exists data', w'.
    split; [exact Hrun|]. split; [exact Hshape'|]. split; [exact Hws'|].
    intros px py Hpx Hpy.
    rewrite (Hcells px py Hpx Hpy), (Hcells1 px py Hpx Hpy).
    case_bounds; simpl; try reflexivity; nia.
Qed.
End Cells.

(** The driver on a valid sector, with a key and an answer for each
    pixel: the cells of its grid. *)
Lemma driver_cells (env : Env) (fuel : nat) (lvl : Z -> Z -> Z)
    (x1 y1 x2 y2 : Z) (key : string) (w : World) :
  0 <= x1 < x2 -> x2 <= 700 -> 0 <= y1 < y2 -> y2 <= 700 ->
  env_headers env !! "authorization"%string = Some key -> key <> ""%string ->
  (forall px py, x1 <= px < x2 -> y1 <= py < y2 ->
     answer env w px py = Level (lvl px py)) ->
  exists (data : ndarray) (w' : World),
    get_level_data env (S fuel) (x1, y1, x2, y2) w = (Ret data, w') /\
    shape data = (Z.to_nat (x2 - x1), Z.to_nat (y2 - y1)) /\
    well_shaped data /\
    forall px py, x1 <= px < x2 -> y1 <= py < y2 ->
      getitem data (Z.to_nat (px - x1)) (Z.to_nat (py - y1))
        = Some (if fits_int (lvl px py) then lvl px py else 0).
Proof.
  intros Hx Hx2 Hy Hy2 Hkey Hne Hans.
  rewrite get_level_data_valid by assumption.
  erewrite bind_Ret by (eapply check_auth_present; eassumption).
  cbv iota. unfold bind at 1, print.
  pose proof (columns_per_batch_bounds (x2 - x1) ltac:(lia)) as [Hk Hkh].
  set (k := max_conc_req / (x2 - x1)) in *.
  pose proof (ceil_bounds (y2 - y1) k ltac:(lia)) as Hnb.
  set (nb := - ((- (y2 - y1)) / k)) in *.
  assert (Hnb0 : 0 <= nb) by nia.
  destruct (batches_cells env fuel lvl x1 y1 x2 y2 k
              ltac:(lia) ltac:(lia) (Z.to_nat nb) 0
              (zeros (Z.to_nat (x2 - x1)) (Z.to_nat (y2 - y1)))
              (printed w [MsgSending ((x2 - x1) * (y2 - y1)) nb]))
    as (data & w' & Hrun & Hshape & Hws & Hcells).
  - lia.
  - rewrite Z2Nat.id by lia. lia.
  - apply well_shaped_zeros.
  - reflexivity.
  - intros px py Hpx Hpy.
    change (answer env w px py = Level (lvl px py)). apply Hans; lia.
  - rewrite Z2Nat.id in Hrun, Hcells by lia.
    exists data, w'.
    split; [exact Hrun|]. split; [exact Hshape|]. split; [exact Hws|].
    intros px py Hpx Hpy. rewrite (Hcells px py Hpx Hpy).
    case_bounds; simpl; try reflexivity; nia.
Qed.

(** X11. End to end: on a valid sector, with a key configured and a
    level answered for each pixel, the grid of the driver holds at
    [(x - x1, y - y1)] the level reported for [(x, y)] (0 when the level
    does not fit the signed 64-bit cell), across all the batches; and the
    grid is the same whatever the order in which the event loop completes
    the requests. *)
Theorem driver_grid_holds_levels (env : Env) (fuel : nat) (lvl : Z -> Z -> Z)
    (x1 y1 x2 y2 : Z) (key : string) (w : World) :
  0 <= x1 < x2 -> x2 <= 700 -> 0 <= y1 < y2 -> y2 <= 700 ->
  env_headers env !! "authorization"%string = Some key -> key <> ""%string ->
  (forall px py, x1 <= px < x2 -> y1 <= py < y2 ->
     answer env w px py = Level (lvl px py)) ->
  exists (data : ndarray) (w' : World),
    get_level_data env (S fuel) (x1, y1, x2, y2) w = (Ret data, w') /\
    (forall px py, x1 <= px < x2 -> y1 <= py < y2 ->
       getitem data (Z.to_nat (px - x1)) (Z.to_nat (py - y1))
         = Some (if fits_int (lvl px py) then lvl px py else 0)) /\
    (forall env' : Env,
       service env' = service env -> env_headers env' = env_headers env ->
       fst (get_level_data env' (S fuel) (x1, y1, x2, y2) w) = Ret data).
Proof.
  intros Hx Hx2 Hy Hy2 Hkey Hne Hans.
  destruct (driver_cells env fuel lvl x1 y1 x2 y2 key w Hx Hx2 Hy Hy2 Hkey Hne Hans)
    as (data & w' & Hrun & Hshape & Hws & Hcells).
  exists data, w'. split; [exact Hrun|]. split; [exact Hcells|].
  intros env' Hservice Hheaders.
  destruct (driver_cells env' fuel lvl x1 y1 x2 y2 key w Hx Hx2 Hy Hy2)
    as (data2 & w2 & Hrun2 & Hshape2 & Hws2 & Hcells2).
  - now rewrite Hheaders.
  - exact Hne.
  - intros px py Hpx Hpy. unfold answer. rewrite Hservice. now apply Hans.
  - rewrite Hrun2. simpl. f_equal.
    apply ndarray_ext; [exact Hws2|exact Hws|congruence|].
    intros r c.
    inversion Hshape as [[Hr Hc]]. inversion Hshape2 as [[Hr2 Hc2]].
    destruct (decide (r < Z.to_nat (x2 - x1) /\ c < Z.to_nat (y2 - y1))%nat)
      as [[Hlr Hlc]|Hout].
    + specialize (Hcells (x1 + Z.of_nat r) (y1 + Z.of_nat c) ltac:(lia) ltac:(lia)).
      specialize (Hcells2 (x1 + Z.of_nat r) (y1 + Z.of_nat c) ltac:(lia) ltac:(lia)).
      replace (Z.to_nat (x1 + Z.of_nat r - x1)) with r in Hcells, Hcells2 by lia.
      replace (Z.to_nat (y1 + Z.of_nat c - y1)) with c in Hcells, Hcells2 by lia.
      congruence.
    + rewrite !getitem_out_of_range; [reflexivity|exact Hws|lia|exact Hws2|lia].
Qed.

Lemma driver_grid_holds_levels_witness :
  exists (data : ndarray) (w' : World),
    get_level_data tens 1 (0, 0, 2, 3) initial_world = (Ret data, w') /\
    getitem data 1 2 = Some 12.
Proof.
  destruct (driver_grid_holds_levels tens 0 (fun px py => 10 * px + py)
              0 0 2 3 "Bearer key" initial_world)
    as (data & w' & Hrun & Hcells & _); try lia.
  - reflexivity.
  - discriminate.
  - intros px py _ _. reflexivity.
  - exists data, w'. split; [exact Hrun|].
    apply (Hcells 1 2); lia.
Defined.

Section Failing_batches.
Variables (env : Env) (fuel : nat).
Variables (x1 y1 x2 y2 k : Z).
Hypothesis (Hx : x1 < x2) (Hk : 1 <= k).

Lemma run_batch_raises (b px py : Z) (e : exn) (data : ndarray) (w : World) :
  0 <= b -> y1 + b * k < y2 ->
  x1 <= px < x2 -> y1 + b * k <= py < Z.min y2 (y1 + b * k + k) ->
  answer env w px py = Failure e ->
  exists ps : list Payload,
    run_batch env (S fuel) (x1, y1, x2, y2) k b data w
      = (Raise (NameError "time"), posted w ps).
Proof.
  intros Hb Hlt Hpx Hpy Hfail. unfold run_batch. rewrite sector_batch_eq.
  destruct (concurrent_raises env fuel x1 (y1 + b * k) x2
              (Z.min y2 (y1 + b * k + k)) px py e w) as [ps Hrun]; try lia.
  - exact Hfail.
  - exists ps. now erewrite bind_Raise by exact Hrun.
Qed.

(** The rounds of the loop with a failed answer waiting in one of
    them: the loop ends in the exception of a fetch. *)
Lemma batches_raise (m : nat) :
  forall (j px py : Z) (e : exn) (data : ndarray) (w : World),
  0 <= j -> (j + Z.of_nat m - 1) * k < y2 - y1 ->
  well_shaped data ->
  shape data = (Z.to_nat (x2 - x1), Z.to_nat (y2 - y1)) ->
  x1 <= px < x2 -> y1 + j * k <= py < y2 ->
  py < y1 + (j + Z.of_nat m) * k ->
  answer env w px py = Failure e ->
  exists w' : World,
    for_each (seqZ j (Z.of_nat m)) (run_batch env (S fuel) (x1, y1, x2, y2) k)
      data w = (Raise (NameError "time"), w').
Proof.
  induction m as [|m IH];
    intros j px py e data w Hj Hlast Hws Hshape Hpx Hpy Hspan Hfail.
  - lia.
  - rewrite seqZ_cons by lia.
    replace (Z.pred (Z.of_nat (S m))) with (Z.of_nat m) by lia.
    cbn [for_each].
    set (batch := pixels_of (sector_batch (x1, y1, x2, y2) k j)).
    assert (dec : forall p : Z * Z,
              {exists level, answer env w (fst p) (snd p) = Level level}
              + {exists e', answer env w (fst p) (snd p) = Failure e'}).
    { intros p. destruct (answer env w (fst p) (snd p)) as [level|e'].
      - left. now exists level.
      - right. now exists e'. }
    destruct (Forall_Exists_dec _ _ dec batch) as [Hall|Hsome].
    + (* the batch is answered: the failure waits in a later round *)
      rewrite Forall_forall in Hall.
      destruct (run_batch_cells env fuel (reported env w) x1 y1 x2 y2 k Hx Hk
                  j data w Hj ltac:(nia) Hws Hshape)
        as (data1 & w1 & ps & Hrun1 & Hshape1 & Hws1 & Hposts1 & Hps & _).
      { intros qx qy Hqx Hqy. apply answer_reported.
        apply (Hall (qx, qy)). unfold batch. rewrite sector_batch_eq.
        apply elem_of_pixels_of. lia. }
      erewrite bind_Ret by exact Hrun1.
      assert (Hlater : Z.min y2 (y1 + j * k + k) <= py).
      { destruct (Z.lt_ge_cases py (Z.min y2 (y1 + j * k + k))) as [Hin|Hge];
          [|lia].
        exfalso.
        destruct (Hall (px, py)) as [level Hlevel].
        - unfold batch. rewrite sector_batch_eq. apply elem_of_pixels_of. lia.
        - simpl in Hlevel. congruence. }
      apply (IH (Z.succ j) px py e data1 w1); try assumption; try nia.
      rewrite (answer_after env w w1 ps px py Hposts1); [exact Hfail|].
      rewrite Hps. change (map ?f ?l) with (f <$> l).
      intros Hin. apply list_elem_of_fmap in Hin as [[qx qy] [Heq Hq]].
      apply (payload_of_inj (px, py) (qx, qy)) in Heq. inversion Heq; subst.
      rewrite sector_batch_eq in Hq. apply elem_of_pixels_of in Hq. lia.
    + (* a pixel of the batch fails *)
      apply Exists_exists in Hsome as ([qx qy] & Hq & e' & Hfail').
      unfold batch in Hq. rewrite sector_batch_eq in Hq.
      apply elem_of_pixels_of in Hq. simpl in Hfail'.
      destruct (run_batch_raises j qx qy e' data w Hj ltac:(nia)
                  ltac:(lia) ltac:(lia) Hfail') as [ps Hrun].
      exists (posted w ps). now erewrite bind_Raise by exact Hrun.
Qed.
End Failing_batches.

(** X12. With a key configured, one failed answer for any pixel of a
    valid sector makes the driver end in the [NameError] for [time]:
    no grid is returned, whatever the other answers. *)
Theorem driver_fails_on_one_failure (env : Env) (fuel : nat)
    (x1 y1 x2 y2 px py : Z) (key : string) (e : exn) (w : World) :
  0 <= x1 < x2 -> x2 <= 700 -> 0 <= y1 < y2 -> y2 <= 700 ->
  env_headers env !! "authorization"%string = Some key -> key <> ""%string ->
  x1 <= px < x2 -> y1 <= py < y2 ->
  answer env w px py = Failure e ->
  exists w' : World,
    get_level_data env (S fuel) (x1, y1, x2, y2) w
      = (Raise (NameError "time"), w').
Proof.
  intros Hx Hx2 Hy Hy2 Hkey Hne Hpx Hpy Hfail.
  rewrite get_level_data_valid by assumption.
  erewrite bind_Ret by (eapply check_auth_present; eassumption).
  cbv iota. unfold bind at 1, print.
  pose proof (columns_per_batch_bounds (x2 - x1) ltac:(lia)) as [Hk Hkh].
  set (k := max_conc_req / (x2 - x1)) in *.
  pose proof (ceil_bounds (y2 - y1) k ltac:(lia)) as Hnb.
  set (nb := - ((- (y2 - y1)) / k)) in *.
  assert (Hnb0 : 0 <= nb) by nia.
  destruct (batches_raise env fuel x1 y1 x2 y2 k ltac:(lia) ltac:(lia)
              (Z.to_nat nb) 0 px py e
              (zeros (Z.to_nat (x2 - x1)) (Z.to_nat (y2 - y1)))
              (printed w [MsgSending ((x2 - x1) * (y2 - y1)) nb]))
    as [w' Hrun];
    try rewrite Z2Nat.id by lia;
    [lia | lia | apply well_shaped_zeros | reflexivity | lia | lia | lia
    | exact Hfail | ].
  rewrite Z2Nat.id in Hrun by lia. now exists w'.
Qed.

(** A service that answers every pixel but [(1, 2)]. *)
Lemma driver_fails_on_one_failure_witness :
  exists w' : World,
    get_level_data one_bad_pixel 1 (0, 0, 2, 3) initial_world
      = (Raise (NameError "time"), w').
Proof.
  apply (driver_fails_on_one_failure one_bad_pixel 0 0 0 2 3 1 2 "Bearer key"
           (ClientError "reset") initial_world); try lia.
  - reflexivity.
  - discriminate.
  - reflexivity.
Defined.

(** ** The batches share the pixels of the sector *)

Lemma concat_Forall2_Permutation {A B : Type} (f : B -> list A)
    (segs : list (list A)) (bs : list B) :
  Forall2 (fun seg b => seg ≡ₚ f b) segs bs ->
  concat segs ≡ₚ concat (map f bs).
Proof.
  induction 1 as [|seg b segs bs Hperm _ IH]; [reflexivity|].
  simpl. now rewrite Hperm, IH.
Qed.

Section Partition.
Variables (x1 y1 x2 y2 k : Z).
Hypothesis (Hk : 1 <= k).

Let batch_pixels (b : Z) : list (Z * Z) :=
  pixels_of (sector_batch (x1, y1, x2, y2) k b).

Lemma elem_of_batch_pixels (b px py : Z) :
  (px, py) ∈ batch_pixels b
  <-> (x1 <= px < x2 /\ y1 + b * k <= py < Z.min y2 (y1 + b * k + k)).
Proof.
  unfold batch_pixels. rewrite sector_batch_eq. apply elem_of_pixels_of.
Qed.

Lemma elem_of_batches (j : Z) (m : nat) (px py : Z) :
  0 <= j ->
  (px, py) ∈ concat (map batch_pixels (seqZ j (Z.of_nat m)))
  <-> (x1 <= px < x2 /\ y1 + j * k <= py < y2 /\
       py < y1 + (j + Z.of_nat m) * k).
Proof.
  intros Hj. rewrite elem_of_concat. split.
  - intros (l & Hin & Hl). change (map ?f ?l) with (f <$> l) in Hl.
    apply list_elem_of_fmap in Hl as (b & -> & Hb).
    apply elem_of_seqZ in Hb. apply elem_of_batch_pixels in Hin. nia.
  - intros (Hpx & Hpy & Hspan).
    exists (batch_pixels ((py - y1) / k)).
    pose proof (Z.div_mod (py - y1) k ltac:(lia)) as Hdm.
    pose proof (Z.mod_pos_bound (py - y1) k ltac:(lia)) as Hmod.
    split.
    + apply elem_of_batch_pixels. nia.
    + change (map ?f ?l) with (f <$> l). apply list_elem_of_fmap_2.
      apply elem_of_seqZ. nia.
Qed.

Lemma NoDup_batches (m : nat) :
  forall j : Z, 0 <= j ->
  NoDup (concat (map batch_pixels (seqZ j (Z.of_nat m)))).
Proof.
  induction m as [|m IH]; intros j Hj; [constructor|].
  rewrite seqZ_cons by lia.
  replace (Z.pred (Z.of_nat (S m))) with (Z.of_nat m) by lia.
  simpl. apply NoDup_app. split; [|split].
  - apply NoDup_pixels_of.
  - intros [px py] Hin Hlater.
    apply elem_of_batch_pixels in Hin.
    apply elem_of_batches in Hlater; [|lia]. nia.
  - apply IH. lia.
Qed.

(** The pixels of the batches [0 .. nb - 1], put end to end, are the
    pixels of the sector, each once. *)
Lemma batches_partition (nb : Z) :
  0 <= nb -> y2 - y1 <= nb * k ->
  concat (map batch_pixels (seqZ 0 nb)) ≡ₚ pixels_of (x1, y1, x2, y2).
Proof.
  intros Hnb Hcover. rewrite <- (Z2Nat.id nb) by lia.
  apply NoDup_Permutation.
  - apply NoDup_batches. lia.
  - apply NoDup_pixels_of.
  - intros [px py]. rewrite elem_of_batches by lia.
    rewrite elem_of_pixels_of. nia.
Qed.
End Partition.

(** X13. On a valid sector, with a key configured and an answer for
    each pixel, the driver posts exactly once for each pixel of the
    sector, whatever the number of batches: the posts of the run are a
    permutation of the payloads of the pixels, [(x2 - x1) * (y2 - y1)]
    posts in all. *)
Theorem driver_posts_once_per_pixel (env : Env) (fuel : nat)
    (x1 y1 x2 y2 : Z) (key : string) (w : World) :
  0 <= x1 < x2 -> x2 <= 700 -> 0 <= y1 < y2 -> y2 <= 700 ->
  env_headers env !! "authorization"%string = Some key -> key <> ""%string ->
  (forall px py, x1 <= px < x2 -> y1 <= py < y2 ->
     exists level, answer env w px py = Level level) ->
  exists (data : ndarray) (w' : World) (ps : list Payload),
    get_level_data env (S fuel) (x1, y1, x2, y2) w = (Ret data, w') /\
    posts w' = posts w ++ ps /\
    ps ≡ₚ map payload_of (pixels_of (x1, y1, x2, y2)) /\
    Z.of_nat (length ps) = (x2 - x1) * (y2 - y1).
Proof.
  intros Hx Hx2 Hy Hy2 Hkey Hne Hans.
  destruct (driver_spec env fuel x1 y1 x2 y2 key w Hx Hx2 Hy Hy2 Hkey Hne Hans)
    as (data & w' & segs & Hrun & _ & _ & Hposts & Hsegs).
  pose proof (columns_per_batch_bounds (x2 - x1) ltac:(lia)) as [Hk Hkh].
  set (k := max_conc_req / (x2 - x1)) in *.
  pose proof (ceil_bounds (y2 - y1) k ltac:(lia)) as Hnb.
  set (nb := - ((- (y2 - y1)) / k)) in *.
  assert (Hperm : concat segs ≡ₚ map payload_of (pixels_of (x1, y1, x2, y2))).
  { rewrite <- (batches_partition x1 y1 x2 y2 k ltac:(lia) nb ltac:(nia) ltac:(lia)).
    rewrite concat_map, map_map.
    apply (concat_Forall2_Permutation
             (fun b => map payload_of
                         (pixels_of (sector_batch (x1, y1, x2, y2) k b)))).
    eapply Forall2_impl; [exact Hsegs|]. now intros seg b [Hp _]. }
  exists data, w', (concat segs).
  split; [exact Hrun|]. split; [exact Hposts|]. split; [exact Hperm|].
  rewrite Hperm, length_map. apply length_pixels_of; lia.
Qed.

Lemma driver_posts_once_per_pixel_witness :
  exists (data : ndarray) (w' : World) (ps : list Payload),
    get_level_data tens 1 (0, 0, 2, 3) initial_world = (Ret data, w') /\
    posts w' = posts initial_world ++ ps /\
    Z.of_nat (length ps) = (2 - 0) * (3 - 0).
Proof.
  destruct (driver_posts_once_per_pixel tens 0 0 0 2 3 "Bearer key" initial_world)
    as (data & w' & ps & Hrun & Hposts & _ & Hlen); try lia.
  - reflexivity.
  - discriminate.
  - intros px py _ _. eexists. reflexivity.
  - exists data, w', ps. split; [exact Hrun|]. split; [exact Hposts|exact Hlen].
Defined.

(** ** What the coordinator prints *)

Lemma problems_of_results (lvl : Z -> Z -> Z) (x1 y1 x2 y2 : Z) :
  x1 <= x2 -> y1 <= y2 ->
  forall l : list (Z * Z),
  (forall p, p ∈ l -> p ∈ pixels_of (x1, y1, x2, y2)) ->
  problems (Z.to_nat (x2 - x1)) (Z.to_nat (y2 - y1)) x1 y1 (map (fetched lvl) l)
  = omap (fun p : Z * Z =>
            if fits_int (lvl (fst p) (snd p)) then None
            else Some (MsgProblemOnPixel (fst p) (snd p) (lvl (fst p) (snd p))))
      l.
Proof.
  intros Hx Hy. induction l as [|p l IH]; intros Hin; [reflexivity|].
  assert (Hp : p ∈ pixels_of (x1, y1, x2, y2)) by (apply Hin; now left).
  assert (Hl : forall q, q ∈ l -> q ∈ pixels_of (x1, y1, x2, y2))
    by (intros q Hq; apply Hin; now right).
  pose proof (target_results_of lvl x1 y1 x2 y2 p Hp) as Ht.
  cbn [map omap list_omap].
  destruct (fits_int (lvl (fst p) (snd p))).
  - rewrite (problems_cons_written _ _ _ _ _ _ _ Ht). now apply IH.
  - rewrite (problems_cons_skipped _ _ _ _ _ _ Ht). cbn [fst snd fetched].
    f_equal. now apply IH.
Qed.

(** X14. With an answer for each pixel, the coordinator prints one
    "problem" notice for each pixel whose level does not fit the signed
    64-bit cell, in the order of the pixels, and nothing else; when all
    the levels fit it prints nothing. *)
Theorem concurrent_reports_oversized_levels (env : Env) (fuel : nat)
    (lvl : Z -> Z -> Z) (x1 y1 x2 y2 : Z) (w : World) :
  x1 <= x2 -> y1 <= y2 ->
  (forall px py, x1 <= px < x2 -> y1 <= py < y2 ->
     answer env w px py = Level (lvl px py)) ->
  exists (data : ndarray) (w' : World),
    get_level_data_concurrent env (S fuel) (x1, y1, x2, y2) w = (Ret data, w') /\
    stdout w' = stdout w ++
      omap (fun p : Z * Z =>
              if fits_int (lvl (fst p) (snd p)) then None
              else Some (MsgProblemOnPixel (fst p) (snd p) (lvl (fst p) (snd p))))
        (pixels_of (x1, y1, x2, y2)) /\
    ((forall px py, x1 <= px < x2 -> y1 <= py < y2 ->
        fits_int (lvl px py) = true) ->
     stdout w' = stdout w).
Proof.
  intros Hx Hy Hans.
  destruct (concurrent_spec lvl x1 y1 x2 y2 Hx Hy env fuel w Hans)
    as (data & ps & Hrun & _).
  eexists data, _. split; [exact Hrun|].
  assert (Hout : problems (Z.to_nat (x2 - x1)) (Z.to_nat (y2 - y1)) x1 y1
                   (results_of lvl (x1, y1, x2, y2))
                 = omap (fun p : Z * Z =>
                           if fits_int (lvl (fst p) (snd p)) then None
                           else Some (MsgProblemOnPixel (fst p) (snd p)
                                        (lvl (fst p) (snd p))))
                     (pixels_of (x1, y1, x2, y2))).
  { unfold results_of. apply problems_of_results; auto. }
  split.
  - simpl. now rewrite Hout.
  - intros Hfits. simpl. rewrite Hout.
    assert (Hnone : forall l : list (Z * Z),
              (forall p, p ∈ l -> p ∈ pixels_of (x1, y1, x2, y2)) ->
              omap (fun p : Z * Z =>
                      if fits_int (lvl (fst p) (snd p)) then None
                      else Some (MsgProblemOnPixel (fst p) (snd p)
                                   (lvl (fst p) (snd p)))) l = []).
    { induction l as [|[px py] l IH]; intros Hin; [reflexivity|].
      cbn [omap list_omap fst snd].
      assert (Hp : (px, py) ∈ pixels_of (x1, y1, x2, y2)) by (apply Hin; now left).
      apply elem_of_pixels_of in Hp. rewrite Hfits by lia.
      apply IH. intros q Hq. apply Hin. now right. }
    rewrite Hnone by auto. apply app_nil_r.
Qed.

Lemma concurrent_reports_oversized_levels_witness :
  exists (data : ndarray) (w' : World),
    get_level_data_concurrent huge 1 (0, 0, 1, 2) initial_world = (Ret data, w') /\
    stdout w' = [MsgProblemOnPixel 0 0 (2 ^ 63); MsgProblemOnPixel 0 1 (2 ^ 63)].
Proof.
  destruct (concurrent_reports_oversized_levels huge 0 (fun _ _ => 2 ^ 63)
              0 0 1 2 initial_world)
    as (data & w' & Hrun & Hout & _).
  - lia.
  - lia.
  - intros px py _ _. reflexivity.
  - exists data, w'. split; [exact Hrun|]. rewrite Hout. reflexivity.
Defined.

(** ** The whole program on fetched data *)

Lemma elem_of_cells (data : ndarray) (v : Z) :
  v ∈ concat (rows data) <-> exists r c, getitem data r c = Some v.
Proof.
  rewrite elem_of_concat. unfold getitem. split.
  - intros (row & Hv & Hrow).
    apply list_elem_of_lookup in Hrow as [r Hr].
    apply list_elem_of_lookup in Hv as [c Hc].
    exists r, c. now rewrite Hr.
  - intros (r & c & Hget).
    destruct (rows data !! r) as [row|] eqn:Hr; [|discriminate].
    simpl in Hget. exists row. split.
    + now apply list_elem_of_lookup_2 in Hget.
    + now apply list_elem_of_lookup_2 in Hr.
Qed.

(** X15. End to end on fetched data: on a valid sector, with a key and
    a level answered for each pixel, [plot_level_map] shows the grid of
    the driver exactly when the largest stored level is positive, with
    that level in the title; otherwise it shows nothing. *)
Theorem plot_level_map_shows_fetched_grid (env : Env) (fuel : nat)
    (lvl : Z -> Z -> Z) (x1 y1 x2 y2 : Z) (key : string) (w : World) :
  0 <= x1 < x2 -> x2 <= 700 -> 0 <= y1 < y2 -> y2 <= 700 ->
  env_headers env !! "authorization"%string = Some key -> key <> ""%string ->
  (forall px py, x1 <= px < x2 -> y1 <= py < y2 ->
     answer env w px py = Level (lvl px py)) ->
  exists (data : ndarray) (w' : World) (max_level : Z),
    get_level_data env (S fuel) (x1, y1, x2, y2) w = (Ret data, w') /\
    (exists px py, x1 <= px < x2 /\ y1 <= py < y2 /\
       max_level = if fits_int (lvl px py) then lvl px py else 0) /\
    (forall px py, x1 <= px < x2 -> y1 <= py < y2 ->
       (if fits_int (lvl px py) then lvl px py else 0) <= max_level) /\
    plot_level_map env (S fuel) (x1, y1, x2, y2) w =
      (Ret tt,
       if 0 <? max_level
       then {| stdout := stdout w'; posts := posts w';
               shown := shown w' ++
                 [{| image := data; extent := [y1; y2; x2; x1];
                     log_norm := true; colorbar := true;
                     title_sector := (x1, y1, x2, y2);
                     title_max := max_level |}] |}
       else w').
Proof.
  intros Hx Hx2 Hy Hy2 Hkey Hne Hans.
  destruct (driver_cells env fuel lvl x1 y1 x2 y2 key w Hx Hx2 Hy Hy2 Hkey Hne Hans)
    as (data & w' & Hrun & Hshape & Hws & Hcells).
  inversion Hshape as [[Hrows Hcols]].
  assert (Hcell : forall px py, x1 <= px < x2 -> y1 <= py < y2 ->
            (if fits_int (lvl px py) then lvl px py else 0) ∈ concat (rows data)).
  { intros px py Hpx Hpy. apply elem_of_cells.
    exists (Z.to_nat (px - x1)), (Z.to_nat (py - y1)). now apply Hcells. }
  destruct (np_amax data) as [m| |] eqn:Hm.
  - destruct (np_amax_spec data m Hm) as [Hin Hge].
    exists data, w', m. split; [exact Hrun|]. split; [|split].
    + apply elem_of_cells in Hin as (r & c & Hget).
      destruct (getitem_Some_lt data r c m Hws Hget) as [Hr Hc].
      exists (x1 + Z.of_nat r), (y1 + Z.of_nat c).
      split; [lia|]. split; [lia|].
      specialize (Hcells (x1 + Z.of_nat r) (y1 + Z.of_nat c) ltac:(lia) ltac:(lia)).
      replace (Z.to_nat (x1 + Z.of_nat r - x1)) with r in Hcells by lia.
      replace (Z.to_nat (y1 + Z.of_nat c - y1)) with c in Hcells by lia.
      congruence.
    + intros px py Hpx Hpy. apply Hge. now apply Hcell.
    + unfold plot_level_map. erewrite bind_Ret by exact Hrun.
      unfold plot_level_map_from_data. rewrite Hm, bind_lift_Ret.
      now destruct (0 <? m).
  - exfalso. specialize (Hcell x1 y1 ltac:(lia) ltac:(lia)).
    unfold np_amax in Hm. destruct (concat (rows data)).
    + now apply elem_of_nil in Hcell.
    + discriminate.
  - exfalso. unfold np_amax in Hm. destruct (concat (rows data)); discriminate.
Qed.

Lemma plot_level_map_shows_fetched_grid_witness :
  exists (data : ndarray) (w' : World) (max_level : Z),
    get_level_data tens 1 (0, 0, 2, 3) initial_world = (Ret data, w') /\
    (forall px py, 0 <= px < 2 -> 0 <= py < 3 ->
       (if fits_int (10 * px + py) then 10 * px + py else 0) <= max_level).
Proof.
  destruct (plot_level_map_shows_fetched_grid tens 0 (fun px py => 10 * px + py)
              0 0 2 3 "Bearer key" initial_world)
    as (data & w' & m & Hrun & _ & Hmax & _); try lia.
  - reflexivity.
  - discriminate.
  - intros px py _ _. reflexivity.
  - exists data, w', m. split; [exact Hrun|exact Hmax].
Defined.

(** ** The returned grid, whatever the service answers *)

(** The driver with a key and a failed answer in the sector. *)
Lemma driver_raises (env : Env) (fuel : nat)
    (x1 y1 x2 y2 px py : Z) (key : string) (e : exn) (w : World) :
  0 <= x1 < x2 -> x2 <= 700 -> 0 <= y1 < y2 -> y2 <= 700 ->
  env_headers env !! "authorization"%string = Some key -> key <> ""%string ->
  x1 <= px < x2 -> y1 <= py < y2 ->
  answer env w px py = Failure e ->
  fst (get_level_data env (S fuel) (x1, y1, x2, y2) w) = Raise (NameError "time").
Proof.
  intros Hx Hx2 Hy Hy2 Hkey Hne Hpx Hpy Hfail.
  enough (exists w', get_level_data env (S fuel) (x1, y1, x2, y2) w
                     = (Raise (NameError "time"), w')) as [w' ->];
    [reflexivity|].
  rewrite get_level_data_valid by assumption.
  erewrite bind_Ret by (eapply check_auth_present; eassumption).
  cbv iota. unfold bind at 1, print.
  pose proof (columns_per_batch_bounds (x2 - x1) ltac:(lia)) as [Hk Hkh].
  set (k := max_conc_req / (x2 - x1)) in *.
  pose proof (ceil_bounds (y2 - y1) k ltac:(lia)) as Hnb.
  set (nb := - ((- (y2 - y1)) / k)) in *.
  assert (Hnb0 : 0 <= nb) by nia.
  destruct (batches_raise env fuel x1 y1 x2 y2 k ltac:(lia) ltac:(lia)
              (Z.to_nat nb) 0 px py e
              (zeros (Z.to_nat (x2 - x1)) (Z.to_nat (y2 - y1)))
              (printed w [MsgSending ((x2 - x1) * (y2 - y1)) nb]))
    as [w' Hrun];
    try rewrite Z2Nat.id by lia;
    [lia | lia | apply well_shaped_zeros | reflexivity | lia | lia | lia
    | exact Hfail | ].
  rewrite Z2Nat.id in Hrun by lia. now exists w'.
Qed.

(** X17. Whatever the service answers, a grid that the driver returns
    for a valid sector is well formed and has the shape
    [(x2 - x1, y2 - y1)]; and with a key configured the driver returns a
    grid only if every pixel of the sector was answered with a level. *)
Theorem returned_grid_has_sector_shape (env : Env) (fuel : nat)
    (x1 y1 x2 y2 : Z) (w w' : World) (data : ndarray) :
  0 <= x1 < x2 -> x2 <= 700 -> 0 <= y1 < y2 -> y2 <= 700 ->
  get_level_data env (S fuel) (x1, y1, x2, y2) w = (Ret data, w') ->
  shape data = (Z.to_nat (x2 - x1), Z.to_nat (y2 - y1)) /\
  well_shaped data /\
  (forall key, env_headers env !! "authorization"%string = Some key ->
     key <> ""%string ->
     forall px py, x1 <= px < x2 -> y1 <= py < y2 ->
       exists level, answer env w px py = Level level).
Proof.
  intros Hx Hx2 Hy Hy2 Hrun.
  assert (Hanswered : forall key,
            env_headers env !! "authorization"%string = Some key ->
            key <> ""%string ->
            forall px py, x1 <= px < x2 -> y1 <= py < y2 ->
              exists level, answer env w px py = Level level).
  { intros key Hkey Hne px py Hpx Hpy.
    destruct (answer env w px py) as [level|e] eqn:Ha; [now exists level|].
    exfalso.
    pose proof (driver_raises env fuel x1 y1 x2 y2 px py key e w
                  Hx Hx2 Hy Hy2 Hkey Hne Hpx Hpy Ha) as Hraise.
    rewrite Hrun in Hraise. discriminate. }
  split; [|split; [|exact Hanswered]].
  - destruct (env_headers env !! "authorization"%string) as [key|] eqn:Hkey.
    + destruct (decide (key = ""%string)) as [->|Hne].
      * rewrite get_level_data_valid in Hrun by assumption.
        erewrite bind_Ret in Hrun by (apply check_auth_missing; now right).
        inversion Hrun. reflexivity.
      * destruct (driver_spec env fuel x1 y1 x2 y2 key w Hx Hx2 Hy Hy2 Hkey Hne
                    (Hanswered key eq_refl Hne))
          as (data2 & w2 & segs & Hrun2 & Hshape & _).
        rewrite Hrun in Hrun2. inversion Hrun2; subst. exact Hshape.
    + rewrite get_level_data_valid in Hrun by assumption.
      erewrite bind_Ret in Hrun by (apply check_auth_missing; now left).
      inversion Hrun. reflexivity.
  - destruct (env_headers env !! "authorization"%string) as [key|] eqn:Hkey.
    + destruct (decide (key = ""%string)) as [->|Hne].
      * rewrite get_level_data_valid in Hrun by assumption.
        erewrite bind_Ret in Hrun by (apply check_auth_missing; now right).
        inversion Hrun. apply well_shaped_zeros.
      * destruct (driver_spec env fuel x1 y1 x2 y2 key w Hx Hx2 Hy Hy2 Hkey Hne
                    (Hanswered key eq_refl Hne))
          as (data2 & w2 & segs & Hrun2 & _ & Hws & _).
        rewrite Hrun in Hrun2. inversion Hrun2; subst. exact Hws.
    + rewrite get_level_data_valid in Hrun by assumption.
      erewrite bind_Ret in Hrun by (apply check_auth_missing; now left).
      inversion Hrun. apply well_shaped_zeros.
Qed.

Lemma returned_grid_has_sector_shape_witness :
  shape {| nrows := 2; ncols := 3; rows := [[0; 1; 2]; [10; 11; 12]] |}
    = (Z.to_nat (2 - 0), Z.to_nat (3 - 0)) /\
  well_shaped {| nrows := 2; ncols := 3; rows := [[0; 1; 2]; [10; 11; 12]] |} /\
  (forall key, env_headers tens !! "authorization"%string = Some key ->
     key <> ""%string ->
     forall px py, 0 <= px < 2 -> 0 <= py < 3 ->
       exists level, answer tens initial_world px py = Level level).
Proof.
  apply (returned_grid_has_sector_shape tens 0 0 0 2 3 initial_world
           {| stdout := [MsgSending 6 1];
              posts := [make_payload 1 1; make_payload 1 2; make_payload 0 2;
                        make_payload 0 1; make_payload 0 0; make_payload 1 0];
              shown := [] |}
           {| nrows := 2; ncols := 3; rows := [[0; 1; 2]; [10; 11; 12]] |});
    try lia.
  rewrite get_level_data_valid by lia. vm_compute. reflexivity.
Defined.
